(** * Request signing of the Aliyun STS client (sts_client.ts)

    A shallow embedding of [StsClient.doRequest] and [StsClient.assumeRole]
    together with the platform functions they call, followed by the
    properties of the signing pipeline.

    Conventions of the embedding.
    - A JavaScript string is represented by the byte sequence of its UTF-8
      encoding (a Rocq [string]).  [TextEncoder.encode] is then the identity
      on the bytes, and [encodeURIComponent] and [trim] are exact.
      [toLowerCase] and [localeCompare] depend on the Unicode tables and on
      the locale of the runtime: where a statement is about every string
      they are parameters ([Platform.t]); where the file computes, on ASCII
      texts, they are the model [Platform.model], which is exact on ASCII
      strings under the root collation.
    - A [Record<string, string>] is the list of its own properties in
      enumeration order; its values are strings, as the type says, and its
      keys are ordinary ones (the accessor key [__proto__] is outside the
      model).
    - Numbers are integers below 10^21 in magnitude, which a template
      literal prints in decimal: a status (an unsigned short), a duration,
      a length, a clock reading.
    - [await] is sequencing; the two clock reads ([currentDateAsISO8601],
      [generateNonce]) and the network exchange are inputs of the model. *)

From Stdlib Require Import String Ascii List NArith ZArith Lia Bool.
From Stdlib Require Import Permutation Sorted DecimalString DecimalPos DecimalZ.
From Stdlib.Strings Require Import Byte.
Import ListNotations.

Set Warnings "-register-all".
Local Open Scope string_scope.

(* ================================================================== *)
(** ** Strings *)

Module JsString.

Definition code (c : ascii) : N := N_of_ascii c.

(** The line feed and the double quote, which string literals of this
    file never contain directly. *)
Definition LF : string := String (ascii_of_N 10) "".
Definition DQ : string := String (ascii_of_N 34) "".
Definition TAB : string := String (ascii_of_N 9) "".
(** U+00A0, the no-break space, in UTF-8. *)
Definition NBSP : string := String (ascii_of_N 194) (String (ascii_of_N 160) "").

Definition isUpper (c : ascii) : bool := (65 <=? code c)%N && (code c <=? 90)%N.
Definition isLower (c : ascii) : bool := (97 <=? code c)%N && (code c <=? 122)%N.
Definition isDigit (c : ascii) : bool := (48 <=? code c)%N && (code c <=? 57)%N.

Definition toLowerChar (c : ascii) : ascii :=
  if isUpper c then ascii_of_N (code c + 32) else c.

(** [String.prototype.toLowerCase]. *)
Fixpoint toLowerCase (s : string) : string :=
  match s with
  | EmptyString => EmptyString
  | String c r => String (toLowerChar c) (toLowerCase r)
  end.

(** The white space and line terminators of one byte: TAB, LF, VT, FF,
    CR and SPACE. *)
Definition isWhiteSpace (c : ascii) : bool :=
  ((9 <=? code c)%N && (code c <=? 13)%N) || (code c =? 32)%N.

(** Those of two bytes in UTF-8: U+00A0, the bytes 194 and 160. *)
Definition isWhiteSpace2 (c1 c2 : ascii) : bool :=
  (code c1 =? 194)%N && (code c2 =? 160)%N.

(** Those of three bytes: U+1680 (225 154 128), U+2000 to U+200A,
    U+2028, U+2029 and U+202F (226 128 and 128 to 138, 168, 169, 175),
    U+205F (226 129 159), U+3000 (227 128 128) and U+FEFF (239 187 191). *)
Definition isWhiteSpace3 (c1 c2 c3 : ascii) : bool :=
  ((code c1 =? 225)%N && (code c2 =? 154)%N && (code c3 =? 128)%N)
  || ((code c1 =? 226)%N && (code c2 =? 128)%N
      && (((128 <=? code c3)%N && (code c3 <=? 138)%N)
          || (code c3 =? 168)%N || (code c3 =? 169)%N || (code c3 =? 175)%N))
  || ((code c1 =? 226)%N && (code c2 =? 129)%N && (code c3 =? 159)%N)
  || ((code c1 =? 227)%N && (code c2 =? 128)%N && (code c3 =? 128)%N)
  || ((code c1 =? 239)%N && (code c2 =? 187)%N && (code c3 =? 191)%N).

(** The text is one white space character. *)
Definition isWhiteSpaceText (u : string) : bool :=
  match u with
  | String c1 EmptyString => isWhiteSpace c1
  | String c1 (String c2 EmptyString) => isWhiteSpace2 c1 c2
  | String c1 (String c2 (String c3 EmptyString)) => isWhiteSpace3 c1 c2 c3
  | _ => false
  end.

(** The text begins with a white space character. *)
Definition startsWithWhiteSpace (s : string) : bool :=
  match s with
  | String c1 r1 =>
      isWhiteSpace c1
      || match r1 with
         | String c2 r2 =>
             isWhiteSpace2 c1 c2
             || match r2 with
                | String c3 _ => isWhiteSpace3 c1 c2 c3
                | EmptyString => false
                end
         | EmptyString => false
         end
  | EmptyString => false
  end.

(** [trimStart] drops white space characters from the front as long as
    there is one. *)
Fixpoint trimStart (s : string) : string :=
  match s with
  | EmptyString => EmptyString
  | String c1 r1 =>
      if isWhiteSpace c1 then trimStart r1
      else match r1 with
           | String c2 r2 =>
               if isWhiteSpace2 c1 c2 then trimStart r2
               else match r2 with
                    | String c3 r3 =>
                        if isWhiteSpace3 c1 c2 c3 then trimStart r3 else s
                    | EmptyString => s
                    end
           | EmptyString => s
           end
  end.

(** [trimEnd] drops them from the back: what is left of the tail either
    completes a white space character with the byte in front of it, which
    then goes too, or stays. *)
Fixpoint trimEnd (s : string) : string :=
  match s with
  | EmptyString => EmptyString
  | String c r =>
      let kept := String c (trimEnd r) in
      if isWhiteSpaceText kept then EmptyString else kept
  end.

(** [String.prototype.trim]. *)
Definition trim (s : string) : string := trimEnd (trimStart s).

(** [s.startsWith(p)]. *)
Definition startsWith (s p : string) : bool := String.prefix p s.

(** [Array.prototype.join] on an array of strings. *)
Definition join (sep : string) (l : list string) : string := String.concat sep l.

Definition hexDigitUpper (n : N) : ascii :=
  if (n <? 10)%N then ascii_of_N (48 + n) else ascii_of_N (55 + n).

Definition hexDigitLower (n : N) : ascii :=
  if (n <? 10)%N then ascii_of_N (48 + n) else ascii_of_N (87 + n).

(** The characters [encodeURIComponent] leaves alone:
    [A-Z a-z 0-9 - _ . ! ~ * ' ( )]. *)
Definition uriUnreserved (c : ascii) : bool :=
  isUpper c || isLower c || isDigit c ||
  existsb (N.eqb (code c)) [45; 95; 46; 33; 126; 42; 39; 40; 41]%N.

Definition percentEncode (c : ascii) : string :=
  String "%" (String (hexDigitUpper (code c / 16))
             (String (hexDigitUpper (code c mod 16)) EmptyString)).

(** [encodeURIComponent]: every byte of the UTF-8 encoding that is not
    an unreserved character becomes [%XX] with upper-case digits. *)
Fixpoint encodeURIComponent (s : string) : string :=
  match s with
  | EmptyString => EmptyString
  | String c r =>
      (if uriUnreserved c then String c EmptyString else percentEncode c)
        ++ encodeURIComponent r
  end.

(** An ASCII character that is not white space. *)
Definition isPlain (c : ascii) : bool := negb (isWhiteSpace c) && (code c <? 128)%N.

(** The digits of lower-case hexadecimal text. *)
Definition isLowerHex (c : ascii) : bool :=
  isDigit c || ((97 <=? code c)%N && (code c <=? 102)%N).

Fixpoint allChars (p : ascii -> bool) (s : string) : bool :=
  match s with
  | EmptyString => true
  | String c r => p c && allChars p r
  end.

(** Template-literal interpolation of a non-negative integer. *)
Definition ofNat (n : nat) : string := NilZero.string_of_uint (Nat.to_uint n).

(** Template-literal interpolation of an integral number below 10^21 in
    magnitude: its decimal digits, after a minus sign when negative. *)
Definition ofZ (z : Z) : string := NilZero.string_of_int (Z.to_int z).

End JsString.
Import JsString.

(* ================================================================== *)
(** ** Collation: [String.prototype.localeCompare] *)

Module Collation.

(** [localeCompare] without arguments compares with the collation of the
    default locale.  The model is the CLDR root collation, which English
    and every locale without a tailoring of the ASCII range use, on ASCII
    strings.  A character carries a primary weight (its rank in the root
    order: white space, punctuation, symbols, currency, digits, letters)
    and a tertiary weight (lower case before upper case); control
    characters are ignorable.  Strings are compared on the primary
    weights first and on the tertiary weights only when those agree. *)

Definition rootOrder : list N :=
  [ 9; 10; 11; 12; 13; 32;
    95; 45; 44; 59; 58; 33; 63; 46; 39; 34; 40; 41; 91; 93; 123; 125;
    64; 42; 47; 92; 38; 35; 37;
    96; 94; 43; 60; 61; 62; 124; 126;
    36 ]%N.

Fixpoint indexOf (x : N) (l : list N) (i : N) : option N :=
  match l with
  | [] => None
  | y :: r => if (x =? y)%N then Some i else indexOf x r (i + 1)%N
  end.

(** Primary weight; [0] marks an ignorable character. *)
Definition primary (c : ascii) : N :=
  let n := code c in
  if isDigit c then (100 + (n - 48))%N
  else if isLower c then (200 + (n - 97))%N
  else if isUpper c then (200 + (n - 65))%N
  else if (128 <=? n)%N then (1000 + n)%N
  else match indexOf n rootOrder 1%N with
       | Some i => i
       | None => 0%N
       end.

Definition tertiary (c : ascii) : N := if isUpper c then 1%N else 0%N.

(** The collation elements of a string: one (primary, tertiary) pair per
    character that is not ignorable. *)
Fixpoint elements (s : string) : list (N * N) :=
  match s with
  | EmptyString => []
  | String c r =>
      if (primary c =? 0)%N then elements r
      else (primary c, tertiary c) :: elements r
  end.

Fixpoint lexCompare (a b : list N) : comparison :=
  match a, b with
  | [], [] => Eq
  | [], _ :: _ => Lt
  | _ :: _, [] => Gt
  | x :: a', y :: b' =>
      match (x ?= y)%N with
      | Eq => lexCompare a' b'
      | c => c
      end
  end.

Definition collate (a b : string) : comparison :=
  match lexCompare (map fst (elements a)) (map fst (elements b)) with
  | Eq => lexCompare (map snd (elements a)) (map snd (elements b))
  | c => c
  end.

(** [a.localeCompare(b)]: negative, zero or positive. *)
Definition localeCompare (a b : string) : Z :=
  match collate a b with
  | Lt => (-1)%Z
  | Eq => 0%Z
  | Gt => 1%Z
  end.

(** Comparison of the UTF-8 bytes, which is the code point order.  The
    code never calls it; it is the order the specification names. *)
Definition codePointCompare (a b : string) : Z :=
  match lexCompare (map code (list_ascii_of_string a))
                   (map code (list_ascii_of_string b)) with
  | Lt => (-1)%Z
  | Eq => 0%Z
  | Gt => 1%Z
  end.

End Collation.
Import Collation.

(* ================================================================== *)
(** ** The string functions that depend on the runtime *)

Module Platform.

(** [String.prototype.toLowerCase], [String.prototype.trim] and
    [String.prototype.localeCompare] of a runtime. *)
Record t : Type := mkPlatform {
  toLowerCase : string -> string;
  trim : string -> string;
  localeCompare : string -> string -> Z
}.

(** Of what ECMAScript asks of a consistent comparator, the part that
    the order of a sorted array rests on: a positive result one way is a
    negative one the other way, and the order is transitive. *)
Definition consistent (P : t) : Prop :=
  (forall a b, (0 < localeCompare P a b)%Z -> (localeCompare P b a < 0)%Z)
  /\ (forall a b c, (localeCompare P a b <= 0)%Z -> (localeCompare P b c <= 0)%Z ->
                    (localeCompare P a c <= 0)%Z).

(** The runtime modelled in this file. *)
Definition model : t :=
  mkPlatform JsString.toLowerCase JsString.trim Collation.localeCompare.

End Platform.

(* ================================================================== *)
(** ** Arrays: [Array.prototype.sort] *)

Module JsArray.

Section Sort.
Context {A : Type}.
(** [compareFn]: a positive result asks for its second argument first. *)
Variable compareFn : A -> A -> Z.

(** [sort] is stable (ECMAScript 2019), so with a consistent
    comparator its result is the one stable ordering of the array, and
    insertion from the right computes it: an element goes in front of
    the first later element that is strictly smaller. *)
Fixpoint insert (x : A) (l : list A) : list A :=
  match l with
  | [] => [x]
  | y :: r => if (0 <? compareFn x y)%Z then y :: insert x r else x :: l
  end.

Fixpoint sort (l : list A) : list A :=
  match l with
  | [] => []
  | x :: r => insert x (sort r)
  end.

(** The orders a comparator induces. *)
Definition le (x y : A) : Prop := (compareFn x y <= 0)%Z.
Definition lt (x y : A) : Prop := (compareFn x y < 0)%Z.

(** No two entries of the list compare equal. *)
Fixpoint tieFree (l : list A) : Prop :=
  match l with
  | [] => True
  | x :: r => Forall (fun y => compareFn x y <> 0%Z) r /\ tieFree r
  end.
End Sort.

End JsArray.
Import JsArray.

(* ================================================================== *)
(** ** Objects used as string maps: [Record<string, string>] *)

Module JsObject.

Definition t := list (string * string).

(** An array index is a canonical numeric string below [2^32 - 1]; such
    keys are enumerated first, in ascending numeric order, and the other
    keys follow in the order of their creation. *)
Fixpoint digitsValue (s : string) (acc : N) : option N :=
  match s with
  | EmptyString => Some acc
  | String c r =>
      if isDigit c then digitsValue r (10 * acc + (code c - 48))%N else None
  end.

Definition arrayIndex (k : string) : option N :=
  match k with
  | EmptyString => None
  | String c r =>
      if (code c =? 48)%N && negb (r =? "") then None
      else match digitsValue k 0%N with
           | Some n => if (n <? 4294967295)%N then Some n else None
           | None => None
           end
  end.

(** [o[k]] for an own property. *)
Fixpoint get (k : string) (o : t) : option string :=
  match o with
  | [] => None
  | (k', v) :: r => if k =? k' then Some v else get k r
  end.

(** Creation of a property that [o] does not have yet. *)
Fixpoint create (k v : string) (o : t) : t :=
  match arrayIndex k with
  | None => (o ++ [(k, v)])%list
  | Some i =>
      match o with
      | [] => [(k, v)]
      | (k', v') :: r =>
          match arrayIndex k' with
          | Some j => if (j <? i)%N then (k', v') :: create k v r
                      else (k, v) :: o
          | None => (k, v) :: o
          end
      end
  end.

Fixpoint update (k v : string) (o : t) : t :=
  match o with
  | [] => []
  | (k', v') :: r => if k =? k' then (k, v) :: r else (k', v') :: update k v r
  end.

(** [o[k] = v]: an existing property keeps its place. *)
Definition set (k v : string) (o : t) : t :=
  match get k o with
  | Some _ => update k v o
  | None => create k v o
  end.

(** [Object.entries(o)]. *)
Definition entries (o : t) : list (string * string) := o.

(** An object has each of its keys once. *)
Definition wf (o : t) : Prop := NoDup (map fst o).

(** [Object.assign(target, source)] for one source. *)
Definition assign1 (target source : t) : t :=
  fold_left (fun acc kv => set (fst kv) (snd kv) acc) (entries source) target.

(** [Object.assign(target, ...sources)]. *)
Definition assign (target : t) (sources : list t) : t :=
  fold_left assign1 sources target.

End JsObject.

(* ================================================================== *)
(** ** Bytes, SHA-256, HMAC and hexadecimal text *)

Module Crypto.

Local Open Scope N_scope.

(** [new TextEncoder().encode(s)]: the UTF-8 bytes of [s]. *)
Definition TextEncoder_encode (s : string) : list byte := list_byte_of_string s.

Definition byteOfN (n : N) : byte :=
  match Byte.of_N n with
  | Some b => b
  | None => x00
  end.

(** 32-bit words are naturals below [2^32]; every operation that can
    leave that range masks its result. *)
Definition mask32 : N := 0xffffffff.
Definition add32 (x y : N) : N := N.land (x + y) mask32.
Definition rotr (n x : N) : N :=
  N.lor (N.shiftr x n) (N.land (N.shiftl x (32 - n)) mask32).
Definition Ch (x y z : N) : N :=
  N.lxor (N.land x y) (N.land (N.lxor x mask32) z).
Definition Maj (x y z : N) : N :=
  N.lxor (N.lxor (N.land x y) (N.land x z)) (N.land y z).
Definition bigSigma0 (x : N) : N := N.lxor (N.lxor (rotr 2 x) (rotr 13 x)) (rotr 22 x).
Definition bigSigma1 (x : N) : N := N.lxor (N.lxor (rotr 6 x) (rotr 11 x)) (rotr 25 x).
Definition smallSigma0 (x : N) : N := N.lxor (N.lxor (rotr 7 x) (rotr 18 x)) (N.shiftr x 3).
Definition smallSigma1 (x : N) : N := N.lxor (N.lxor (rotr 17 x) (rotr 19 x)) (N.shiftr x 10).

(** The words of a line of hexadecimal text, separated by spaces. *)
Definition hexDigitValue (c : ascii) : N :=
  if isDigit c then code c - 48 else code c - 87.

Fixpoint hexWords (s : string) (acc : N) (started : bool) : list N :=
  match s with
  | EmptyString => if started then [acc] else []
  | String c r =>
      if code c =? 32
      then (if started then acc :: hexWords r 0 false else hexWords r 0 false)
      else hexWords r (16 * acc + hexDigitValue c) true
  end.

(** The sixty-four round constants of FIPS 180-4, section 4.2.2. *)
Definition roundConstants : list N :=
  flat_map (fun line => hexWords line 0 false)
    [ "428a2f98 71374491 b5c0fbcf e9b5dba5 3956c25b 59f111f1 923f82a4 ab1c5ed5";
      "d807aa98 12835b01 243185be 550c7dc3 72be5d74 80deb1fe 9bdc06a7 c19bf174";
      "e49b69c1 efbe4786 0fc19dc6 240ca1cc 2de92c6f 4a7484aa 5cb0a9dc 76f988da";
      "983e5152 a831c66d b00327c8 bf597fc7 c6e00bf3 d5a79147 06ca6351 14292967";
      "27b70a85 2e1b2138 4d2c6dfc 53380d13 650a7354 766a0abb 81c2c92e 92722c85";
      "a2bfe8a1 a81a664b c24b8b70 c76c51a3 d192e819 d6990624 f40e3585 106aa070";
      "19a4c116 1e376c08 2748774c 34b0bcb5 391c0cb3 4ed8aa4a 5b9cca4f 682e6ff3";
      "748f82ee 78a5636f 84c87814 8cc70208 90befffa a4506ceb bef9a3f7 c67178f2" ]%string.

Record HashState := mkHash { ha : N; hb : N; hc : N; hd : N;
                             he : N; hf : N; hg : N; hh : N }.

Definition initialHash : HashState :=
  mkHash 0x6a09e667 0xbb67ae85 0x3c6ef372 0xa54ff53a
         0x510e527f 0x9b05688c 0x1f83d9ab 0x5be0cd19.

(** Big-endian bytes of a number, [n] of them. *)
Fixpoint bigEndian (n : nat) (x : N) : list N :=
  match n with
  | O => []
  | S m => N.land (N.shiftr x (8 * N.of_nat m)) 0xff :: bigEndian m x
  end.

(** The message followed by the bit 1, zero bits up to 56 modulo 64
    bytes, and the bit length on 64 bits. *)
Definition pad (msg : list N) : list N :=
  let len := N.of_nat (length msg) in
  let zeros := (64 - (len + 9) mod 64) mod 64 in
  (msg ++ [0x80] ++ repeat 0 (N.to_nat zeros) ++ bigEndian 8 (8 * len))%list.

Fixpoint wordsOfBytes (l : list N) : list N :=
  match l with
  | b0 :: b1 :: b2 :: b3 :: r =>
      (N.shiftl b0 24 + N.shiftl b1 16 + N.shiftl b2 8 + b3) :: wordsOfBytes r
  | _ => []
  end.

Fixpoint blocks (fuel : nat) (ws : list N) : list (list N) :=
  match fuel, ws with
  | S f, _ :: _ => firstn 16 ws :: blocks f (skipn 16 ws)
  | _, _ => []
  end.

(** The message schedule, latest word first: [extend] adds
    [W_t = s1(W_(t-2)) + W_(t-7) + s0(W_(t-15)) + W_(t-16)]. *)
Definition extend (w : list N) : list N :=
  add32 (add32 (smallSigma1 (nth 1 w 0)) (nth 6 w 0))
        (add32 (smallSigma0 (nth 14 w 0)) (nth 15 w 0)) :: w.

Definition schedule (block : list N) : list N :=
  rev (Nat.iter 48 extend (rev block)).

Definition round (s : HashState) (kw : N * N) : HashState :=
  let t1 := add32 (add32 (add32 (hh s) (bigSigma1 (he s)))
                         (add32 (Ch (he s) (hf s) (hg s)) (fst kw))) (snd kw) in
  let t2 := add32 (bigSigma0 (ha s)) (Maj (ha s) (hb s) (hc s)) in
  mkHash (add32 t1 t2) (ha s) (hb s) (hc s) (add32 (hd s) t1) (he s) (hf s) (hg s).

Definition compress (s : HashState) (block : list N) : HashState :=
  let r := fold_left round (combine roundConstants (schedule block)) s in
  mkHash (add32 (ha s) (ha r)) (add32 (hb s) (hb r))
         (add32 (hc s) (hc r)) (add32 (hd s) (hd r))
         (add32 (he s) (he r)) (add32 (hf s) (hf r))
         (add32 (hg s) (hg r)) (add32 (hh s) (hh r)).

Definition digestBytes (s : HashState) : list N :=
  flat_map (bigEndian 4) [ha s; hb s; hc s; hd s; he s; hf s; hg s; hh s].

(** [crypto.subtle.digest("SHA-256", bytes)] (FIPS 180-4). *)
Definition sha256 (msg : list byte) : list byte :=
  let ws := wordsOfBytes (pad (map Byte.to_N msg)) in
  map byteOfN (digestBytes (fold_left compress (blocks (length ws) ws) initialHash)).

Definition xorByte (c : N) (b : byte) : byte := byteOfN (N.lxor c (Byte.to_N b)).

(** HMAC with SHA-256 (RFC 2104): block size 64, inner pad [0x36], outer
    pad [0x5c]; a key longer than a block is replaced by its digest. *)
Definition hmacSha256 (key msg : list byte) : list byte :=
  let k0 := if (64 <? length key)%nat then sha256 key else key in
  let k := (k0 ++ repeat x00 (64 - length k0))%list in
  sha256 (map (xorByte 0x5c) k ++ sha256 (map (xorByte 0x36) k ++ msg))%list.

Definition hexOfByte (b : byte) : string :=
  String (hexDigitLower (Byte.to_N b / 16))
         (String (hexDigitLower (Byte.to_N b mod 16)) EmptyString).

(** [encodeHex] of std/encoding/hex.ts: two lower-case digits per byte. *)
Fixpoint encodeHex (l : list byte) : string :=
  match l with
  | [] => EmptyString
  | b :: r => (hexOfByte b ++ encodeHex r)%string
  end.

(** [hmac("sha256", key, data, "utf8", "hex")] of hmac/mod.ts: key and
    data are taken as their UTF-8 bytes, the tag is returned in hex. *)
Definition hmac (key data : string) : string :=
  encodeHex (hmacSha256 (TextEncoder_encode key) (TextEncoder_encode data)).

End Crypto.

(* ================================================================== *)
(** ** JSON values *)

Module Json.

(** A JSON document as [JSON.parse] returns it and [JSON.stringify]
    reads it: the members of an object are kept in enumeration order.
    A number is kept as the text that [ToString] gives it (3600, 0.5,
    1e+21), which is all that is read of one. *)
Inductive value : Type :=
| JNull
| JBool (b : bool)
| JNumber (text : string)
| JString (s : string)
| JArray (items : list value)
| JObject (members : list (string * value)).

Definition hex4 (n : N) : string :=
  String (hexDigitLower (n / 4096))
    (String (hexDigitLower ((n / 256) mod 16))
      (String (hexDigitLower ((n / 16) mod 16))
        (String (hexDigitLower (n mod 16)) EmptyString))).

(** One character of a quoted JSON string. *)
Definition escapeChar (c : ascii) : string :=
  let n := code c in
  if (n =? 34)%N then "\" ++ DQ
  else if (n =? 92)%N then "\\"
  else if (n =? 8)%N then "\b"
  else if (n =? 9)%N then "\t"
  else if (n =? 10)%N then "\n"
  else if (n =? 12)%N then "\f"
  else if (n =? 13)%N then "\r"
  else if (n <? 32)%N then "\u" ++ hex4 n
  else String c EmptyString.

Fixpoint escape (s : string) : string :=
  match s with
  | EmptyString => EmptyString
  | String c r => escapeChar c ++ escape r
  end.

Definition quote (s : string) : string := DQ ++ escape s ++ DQ.

(** The numbers that [JSON.stringify] writes as [null]. *)
Definition isNonFinite (text : string) : bool :=
  (text =? "NaN") || (text =? "Infinity") || (text =? "-Infinity").

(** [JSON.stringify(v)] without indentation. *)
Fixpoint stringify (v : value) : string :=
  match v with
  | JNull => "null"
  | JBool true => "true"
  | JBool false => "false"
  | JNumber text => if isNonFinite text then "null" else text
  | JString s => quote s
  | JArray items => "[" ++ join "," (map stringify items) ++ "]"
  | JObject members =>
      "{" ++ join "," (map (fun kv => match kv with
                                      | (k, x) => quote k ++ ":" ++ stringify x
                                      end) members) ++ "}"
  end.

Fixpoint lookup (k : string) (members : list (string * value)) : option value :=
  match members with
  | [] => None
  | (k', x) :: r => if k =? k' then Some x else lookup k r
  end.

End Json.
Import Json.

(* ================================================================== *)
(** ** Completions: values and exceptions *)

Module Js.

(** A value read from a parsed document: [None] is [undefined]. *)
Definition jsval := option Json.value.

(** A [ClientError]: the message that [Error] keeps as a string, and
    the four private fields as the constructor got them. *)
Record ClientError : Type := mkClientError {
  message : string;
  requestId : jsval;
  hostId : jsval;
  code : jsval;
  recommend : jsval
}.

(** What a [throw] carries.  A [ClientError] and an [Error] made with
    [new Error(message)] both have the name [Error]; an exception raised
    by the platform (fetch, the body reader, a property access) is known
    by its name. *)
Inductive Exception : Type :=
| ThrownClientError (e : ClientError)
| ThrownError (msg : string)
| ThrownByPlatform (name : string).

Definition exceptionName (e : Exception) : string :=
  match e with
  | ThrownClientError _ => "Error"
  | ThrownError _ => "Error"
  | ThrownByPlatform n => n
  end.

Inductive Completion (A : Type) : Type :=
| Normal (a : A)
| Throw (e : Exception).
Arguments Normal {A} a.
Arguments Throw {A} e.

Definition bind {A B : Type} (c : Completion A) (k : A -> Completion B) : Completion B :=
  match c with
  | Normal a => k a
  | Throw e => Throw e
  end.

(** [try { body } catch (e) { handler }]. *)
Definition tryCatch {A : Type} (body : Completion A)
           (handler : Exception -> Completion A) : Completion A :=
  match body with
  | Normal a => Normal a
  | Throw e => handler e
  end.

(** [base.key]: a [TypeError] on [null] and [undefined], the member of
    an object, and [undefined] on the other values, which have no
    property of the names read here. *)
Definition prop (base : jsval) (key : string) : Completion jsval :=
  match base with
  | None => Throw (ThrownByPlatform "TypeError")
  | Some JNull => Throw (ThrownByPlatform "TypeError")
  | Some (JObject members) => Normal (Json.lookup key members)
  | Some _ => Normal None
  end.

Fixpoint allSome {A : Type} (l : list (option A)) : option (list A) :=
  match l with
  | [] => Some []
  | None :: _ => None
  | Some a :: r => option_map (cons a) (allSome r)
  end.

(** [ToString] of a value of a parsed document; [None] is the [TypeError]
    of a value without a primitive form.  An array is the join of its
    elements with commas, [null] elements giving nothing; an object is
    [[object Object]], unless a member named toString hides the method of
    that name. *)
Fixpoint toStringValue (v : Json.value) : option string :=
  match v with
  | JNull => Some "null"
  | JBool true => Some "true"
  | JBool false => Some "false"
  | JNumber text => Some text
  | JString s => Some s
  | JArray items =>
      option_map (join ",")
        (allSome (map (fun x => match x with
                                | JNull => Some ""
                                | _ => toStringValue x
                                end) items))
  | JObject members =>
      match Json.lookup "toString" members with
      | Some _ => None
      | None => Some "[object Object]"
      end
  end.

(** The message that [Error] keeps of the argument [message]:
    [ToString] of it, and the empty string of the prototype when it is
    [undefined]. *)
Definition messageText (message : jsval) : option string :=
  match message with
  | None => Some ""
  | Some v => toStringValue v
  end.

(** [new ClientError(message, requestId, hostId, code, recommend)]. *)
Definition newClientError (message requestId hostId code recommend : jsval)
  : Completion ClientError :=
  match messageText message with
  | Some text => Normal (mkClientError text requestId hostId code recommend)
  | None => Throw (ThrownByPlatform "TypeError")
  end.

(** The member [key] of a value that is neither [null] nor [undefined]. *)
Definition member (v : Json.value) (key : string) : jsval :=
  match v with
  | JObject members => Json.lookup key members
  | _ => None
  end.

End Js.
Import Js.

Declare Scope js_scope.
Delimit Scope js_scope with js.
Notation "x <- c ;; k" := (Js.bind c (fun x => k))
  (at level 61, c at next level, right associativity) : js_scope.

(* ================================================================== *)
(** ** The client: sts_client.ts *)

Module StsClient.

Import JsObject Crypto.
Local Open Scope js_scope.

(** The three private fields set by the constructor. *)
Record t : Type := mkClient {
  endpoint : string;
  accessKeyId : string;
  accessKeySecret : string
}.

Definition defaultHeaders : JsObject.t :=
  [ ("x-sdk-client", "deno/1.0.0");
    ("x-acs-version", "2015-04-01");
    ("Accept", "application/json") ].

(** The [method] parameter of [doRequest]. *)
Inductive Method : Type := GET | POST | PUT | DELETE | PATCH | OPTIONS | HEAD.

Definition methodText (m : Method) : string :=
  match m with
  | GET => "GET" | POST => "POST" | PUT => "PUT" | DELETE => "DELETE"
  | PATCH => "PATCH" | OPTIONS => "OPTIONS" | HEAD => "HEAD"
  end.

(** The value of the option [timeoutMs] as [AbortSignal.timeout] reads
    it: [undefined], or a number, of which the conversion keeps the
    integral part. *)
Inductive TimeoutValue : Type :=
| TimeoutUndefined
| TimeoutNaN
| TimeoutInfinite
| TimeoutFinite (integralPart : Z).

(** [RequestOptions]: [None] is an object without the property. *)
Record RequestOptions : Type := mkOptions { timeoutMs : option TimeoutValue }.

(** [AbortSignal.timeout(milliseconds)]: the argument is converted to an
    unsigned long long with the range enforced, which is a [TypeError] for
    [undefined], NaN, an infinity, a negative number and a number above
    2^53 - 1. *)
Definition AbortSignal_timeout (v : TimeoutValue) : Completion Z :=
  match v with
  | TimeoutFinite ms =>
      if (0 <=? ms)%Z && (ms <=? 9007199254740991)%Z then Normal ms
      else Throw (ThrownByPlatform "TypeError")
  | _ => Throw (ThrownByPlatform "TypeError")
  end.

(** A [Policy] is an object: the list of its members in enumeration
    order.  [null] is [None]. *)
Definition Policy : Type := list (string * Json.value).

Record AssumeRoleRequest : Type := mkAssumeRoleRequest {
  durationSeconds : Z;
  policy : option Policy;
  roleArn : string;
  roleSessionName : string;
  externalId : option string
}.

Record AssumedRoleUser : Type := mkAssumedRoleUser {
  arn : jsval;
  assumedRoleId : jsval
}.

Record Credentials : Type := mkCredentials {
  securityToken : jsval;
  credAccessKeyId : jsval;
  credAccessKeySecret : jsval;
  expiration : jsval
}.

Record AssumeRoleResponse : Type := mkAssumeRoleResponse {
  respRequestId : jsval;
  assumedRoleUser : AssumedRoleUser;
  credentials : Credentials
}.

(** [ClientError.fromHttpError]. *)
Definition fromHttpError (msg : string) (status : Z) : ClientError :=
  mkClientError msg None None (Some (JString (ofZ status))) None.

(** What [fetch] receives; the signal is kept as the value it was made
    from. *)
Record RequestInit : Type := mkRequestInit {
  initMethod : Method;
  initHeaders : JsObject.t;
  keepalive : bool;
  signalTimeout : TimeoutValue;
  body : option (list byte)
}.

(** What [fetch] resolves to: the status, an unsigned short, and the
    outcome of [response.json()]. *)
Record Response : Type := mkResponse {
  status : Z;
  json : Completion Json.value
}.

(** *** The canonicalizer: lines 208 to 242 of [doRequest] *)

(** [`${encodeURIComponent(k)}=${... encodeURIComponent(v)}`]; the guard
    on [null] and [undefined] cannot fire on a [Record<string, string>]. *)
Definition formPair (e : string * string) : string :=
  encodeURIComponent (fst e) ++ "=" ++ encodeURIComponent (snd e).

Definition byKey (e1 e2 : string * string) : Z := localeCompare (fst e1) (fst e2).

Definition canonicalQueryString (query : JsObject.t) : string :=
  join "&" (map formPair (sort byKey (entries query))).

Definition payloadString (payload : option JsObject.t) : string :=
  match payload with
  | Some p => join "&" (map formPair (entries p))
  | None => ""
  end.

Definition payloadBytes (payload : option JsObject.t) : list byte :=
  TextEncoder_encode (payloadString payload).

Definition payloadHashString (payload : option JsObject.t) : string :=
  encodeHex (sha256 (payloadBytes payload)).

Definition lowerTrim (e : string * string) : string * string :=
  (toLowerCase (fst e), trim (snd e)).

Definition isSigned (e : string * string) : bool :=
  (fst e =? "host") || startsWith (fst e) "x-acs-".

(** The headers that take part in the signature, from the header object
    as it stands at line 230. *)
Definition canonicalHeaders (allHeaders : JsObject.t) : list (string * string) :=
  sort byKey (filter isSigned (map lowerTrim (entries allHeaders))).

Definition canonicalHeaderString (allHeaders : JsObject.t) : string :=
  join LF (map (fun e => fst e ++ ":" ++ snd e) (canonicalHeaders allHeaders)).

Definition canonicalHeaderNameString (allHeaders : JsObject.t) : string :=
  join ";" (map fst (canonicalHeaders allHeaders)).

(** Lines 230 to 239 over the string functions of any runtime;
    [canonicalHeaders] and its two strings are these at [Platform.model]. *)
Definition lowerTrimOn (P : Platform.t) (e : string * string) : string * string :=
  (Platform.toLowerCase P (fst e), Platform.trim P (snd e)).

Definition byKeyOn (P : Platform.t) (e1 e2 : string * string) : Z :=
  Platform.localeCompare P (fst e1) (fst e2).

Definition canonicalHeadersOn (P : Platform.t) (allHeaders : JsObject.t)
  : list (string * string) :=
  sort (byKeyOn P) (filter isSigned (map (lowerTrimOn P) (entries allHeaders))).

Definition canonicalHeaderStringOn (P : Platform.t) (allHeaders : JsObject.t) : string :=
  join LF (map (fun e => fst e ++ ":" ++ snd e) (canonicalHeadersOn P allHeaders)).

Definition canonicalHeaderNameStringOn (P : Platform.t) (allHeaders : JsObject.t) : string :=
  join ";" (map fst (canonicalHeadersOn P allHeaders)).

(** The template literal of line 242. *)
Definition canonicalRequestText
           (method uri queryString headerString headerNames payloadHash : string) : string :=
  method ++ LF ++ uri ++ LF ++ queryString ++ LF ++ headerString ++ LF ++ LF
         ++ headerNames ++ LF ++ payloadHash.

(** *** The signer: lines 249 to 263 *)

Definition string2sign (canonicalRequest : string) : string :=
  "ACS3-HMAC-SHA256" ++ LF
    ++ encodeHex (sha256 (TextEncoder_encode canonicalRequest)).

Definition sigString (secret canonicalRequest : string) : string :=
  hmac secret (string2sign canonicalRequest).

Definition authorizationHeaderText (keyId headerNames signature : string) : string :=
  "ACS3-HMAC-SHA256 Credential=" ++ keyId ++ ",SignedHeaders=" ++ headerNames
    ++ ",Signature=" ++ signature.

(** *** The response: lines 298 to 332 *)

Definition tryBody (fetched : Completion Response) : Completion AssumeRoleResponse :=
  response <- fetched ;;
  if (500 <=? status response)%Z then
    Throw (ThrownClientError (fromHttpError "response status code error" (status response)))
  else if (400 <=? status response)%Z then
    envelope <- json response ;;
    RequestId <- prop (Some envelope) "RequestId" ;;
    HostId <- prop (Some envelope) "HostId" ;;
    Code <- prop (Some envelope) "Code" ;;
    Message <- prop (Some envelope) "Message" ;;
    Recommend <- prop (Some envelope) "Recommend" ;;
    error <- newClientError Message RequestId HostId Code Recommend ;;
    Throw (ThrownClientError error)
  else
    retObj <- json response ;;
    rid <- prop (Some retObj) "RequestId" ;;
    user <- prop (Some retObj) "AssumedRoleUser" ;;
    roleId <- prop user "AssumedRoleId" ;;
    userArn <- prop user "Arn" ;;
    creds <- prop (Some retObj) "Credentials" ;;
    token <- prop creds "SecurityToken" ;;
    keyId <- prop creds "AccessKeyId" ;;
    keySecret <- prop creds "AccessKeySecret" ;;
    expires <- prop creds "Expiration" ;;
    Normal (mkAssumeRoleResponse rid
              (mkAssumedRoleUser userArn roleId)
              (mkCredentials token keyId keySecret expires)).

Definition catchHandler (e : Exception) : Completion AssumeRoleResponse :=
  if exceptionName e =? "TimeoutError" then Throw (ThrownError "request timeout")
  else Throw e.

Definition handleResponse (fetched : Completion Response) : Completion AssumeRoleResponse :=
  tryCatch (tryBody fetched) catchHandler.

(** *** [doRequest] *)

Section DoRequest.

(** The client, the arguments of the call, and what the call reads
    from the clock: [currentDateAsISO8601()] and [generateNonce()]. *)
Variable this : t.
Variable method : Method.
Variable uri : string.
Variables headers query : JsObject.t.
Variable payload : option JsObject.t.
Variable options : option RequestOptions.
Variables timeString nonce : string.

(** [allHeaders] after the [Object.assign] of line 202. *)
Definition mergedHeaders : JsObject.t :=
  assign [ ("x-acs-signature-nonce", nonce);
           ("x-acs-date", timeString);
           ("host", endpoint this) ]
         [ defaultHeaders; headers ].

(** [allHeaders] after line 225. *)
Definition hashedHeaders : JsObject.t :=
  set "x-acs-content-sha256" (payloadHashString payload) mergedHeaders.

Definition canonicalRequest : string :=
  canonicalRequestText (methodText method) uri (canonicalQueryString query)
    (canonicalHeaderString hashedHeaders)
    (canonicalHeaderNameString hashedHeaders)
    (payloadHashString payload).

Definition authorizationHeader : string :=
  authorizationHeaderText (accessKeyId this)
    (canonicalHeaderNameString hashedHeaders)
    (sigString (accessKeySecret this) canonicalRequest).

(** [allHeaders] as it is handed to [fetch]: after lines 267 to 273. *)
Definition allHeaders : JsObject.t :=
  let h := set "Authorization" authorizationHeader hashedHeaders in
  let h := if (0 <? String.length (payloadString payload))%nat
           then set "Content-Length" (ofNat (List.length (payloadBytes payload))) h
           else h in
  set "Content-Type" "application/x-www-form-urlencoded" h.

Definition fullUrl : string :=
  "https://" ++ endpoint this ++ uri
    ++ (if (0 <? String.length (canonicalQueryString query))%nat then "?" else "")
    ++ canonicalQueryString query.

(** [Object.assign({ timeoutMs: 10000 }, options)]: a property of the
    options replaces the default, also when it holds [undefined]. *)
Definition effectiveTimeout : TimeoutValue :=
  match options with
  | Some o => match timeoutMs o with
              | Some v => v
              | None => TimeoutFinite 10000
              end
  | None => TimeoutFinite 10000
  end.

Definition requestInit : RequestInit :=
  mkRequestInit method allHeaders false effectiveTimeout
    (if (0 <? String.length (payloadString payload))%nat
     then Some (payloadBytes payload) else None).

(** The network is an argument: what [fetch] does with one request.
    The signal is made before the [try] block is entered, and [fetch] is
    called only when it could be made. *)
Definition doRequest (fetch : string -> RequestInit -> Completion Response)
  : Completion AssumeRoleResponse :=
  milliseconds <- AbortSignal_timeout effectiveTimeout ;;
  handleResponse (fetch fullUrl requestInit).

End DoRequest.

(** *** [assumeRole] *)

Definition assumeRoleHeaders : JsObject.t := [ ("x-acs-action", "AssumeRole") ].

Definition assumeRolePayload (config : AssumeRoleRequest) : JsObject.t :=
  let payload := [ ("DurationSeconds", ofZ (durationSeconds config));
                   ("RoleArn", roleArn config);
                   ("RoleSessionName", roleSessionName config) ] in
  let payload := match policy config with
                 | Some p => set "Policy" (Json.stringify (JObject p)) payload
                 | None => payload
                 end in
  match externalId config with
  | Some x => if (0 <? String.length x)%nat then set "ExternalId" x payload else payload
  | None => payload
  end.

Definition assumeRole (this : t) (config : AssumeRoleRequest)
           (options : option RequestOptions) (timeString nonce : string)
           (fetch : string -> RequestInit -> Completion Response)
  : Completion AssumeRoleResponse :=
  doRequest this POST "/" assumeRoleHeaders [] (Some (assumeRolePayload config))
            options timeString nonce fetch.

(** [new AssumeRoleRequest(roleArn, roleSessionName, policy)]: the field
    initializers give [durationSeconds] 3600 and [externalId] [null]. *)
Definition newAssumeRoleRequest (roleArn roleSessionName : string)
           (policy : option Policy) : AssumeRoleRequest :=
  mkAssumeRoleRequest 3600 policy roleArn roleSessionName None.

End StsClient.

(* ================================================================== *)
(** ** The clock helpers: helper.ts *)

Module Helper.

(** [s.substring(indexStart, indexEnd)]: both indices are clamped to the
    string and exchanged when the first is the larger. *)
Definition clampIndex (len : nat) (i : Z) : nat :=
  Z.to_nat (Z.max 0 (Z.min i (Z.of_nat len))).

Definition substring (s : string) (indexStart indexEnd : Z) : string :=
  let a := clampIndex (String.length s) indexStart in
  let b := clampIndex (String.length s) indexEnd in
  String.substring (Nat.min a b) (Nat.max a b - Nat.min a b) s.

(** [currentDateAsISO8601], with the text of [new Date().toISOString()]
    as its argument. *)
Definition currentDateAsISO8601 (iso : string) : string :=
  substring iso 0 (Z.of_nat (String.length iso) - 5) ++ "Z".

(** [generateNonce], with the milliseconds of [Date.now()] as its
    argument. *)
Definition generateNonce (now : Z) : string := ofZ now.

End Helper.

(* ================================================================== *)
(** ** The characters of the encoded forms *)

Module Wire.

(** What [encodeURIComponent] can produce: an unreserved character or
    the percent sign. *)
Definition isUriSafe (c : ascii) : bool := uriUnreserved c || (JsString.code c =? 37)%N.

(** What a form-encoded body or query can hold: the above and the two
    separators [&] and [=]. *)
Definition isFormChar (c : ascii) : bool :=
  isUriSafe c || (JsString.code c =? 38)%N || (JsString.code c =? 61)%N.

(** The strings without the character [sep]. *)
Definition avoids (sep : ascii) (s : string) : bool :=
  allChars (fun c => negb (Ascii.eqb c sep)) s.

End Wire.

(* ================================================================== *)
(** ** The specification's wording, where it departs from the code *)

Module Specification.

Import JsObject StsClient.

(** The canonical request as the specification words it: the seven
    fields in order, each followed by a single line feed. *)
Definition specCanonicalRequest
           (method uri queryString headerString headerNames payloadHash : string) : string :=
  String.concat ""
    (map (fun field => field ++ LF)
         [method; uri; queryString; headerString; ""; headerNames; payloadHash]).

(** The canonical query string as the specification words it: the
    entries sorted by key in byte order. *)
Definition byKeyCodePoint (e1 e2 : string * string) : Z :=
  codePointCompare (fst e1) (fst e2).

Definition specCanonicalQueryString (query : JsObject.t) : string :=
  join "&" (map formPair (sort byKeyCodePoint (entries query))).




End Specification.

(* ================================================================== *)
(** * Properties *)

(** ** The collation is a consistent comparator *)

Module CollationFacts.

Lemma lexCompare_refl (a : list N) : lexCompare a a = Eq.
Proof.
  induction a as [|x a IH]; simpl; [reflexivity|].
  now rewrite N.compare_refl.
Qed.

Lemma lexCompare_eq (a b : list N) : lexCompare a b = Eq -> a = b.
Proof.
  revert b; induction a as [|x a IH]; intros [|y b]; simpl; try easy.
  destruct (x ?= y)%N eqn:E; try easy.
  apply N.compare_eq in E; intros H; f_equal; auto.
Qed.

Lemma lexCompare_opp (a b : list N) : lexCompare b a = CompOpp (lexCompare a b).
Proof.
  revert b; induction a as [|x a IH]; intros [|y b]; simpl; try reflexivity.
  rewrite (N.compare_antisym x y).
  destruct (x ?= y)%N; simpl; auto.
Qed.

Lemma lexCompare_lt_trans (a b c : list N) :
  lexCompare a b = Lt -> lexCompare b c = Lt -> lexCompare a c = Lt.
Proof.
  revert b c; induction a as [|x a IH]; intros [|y b] [|z c]; simpl; try easy.
  destruct (x ?= y)%N eqn:Exy; try easy; destruct (y ?= z)%N eqn:Eyz; try easy.
  - apply N.compare_eq in Exy, Eyz; subst. rewrite N.compare_refl. apply IH.
  - apply N.compare_eq in Exy; subst. now rewrite Eyz.
  - apply N.compare_eq in Eyz; subst. now rewrite Exy.
  - intros _ _. rewrite N.compare_lt_iff in *.
    assert (x < z)%N as H by lia. apply N.compare_lt_iff in H. now rewrite H.
Qed.

Lemma lexCompare_le_trans (a b c : list N) :
  lexCompare a b <> Gt -> lexCompare b c <> Gt -> lexCompare a c <> Gt.
Proof.
  intros Hab Hbc.
  destruct (lexCompare a b) eqn:Eab; try easy.
  - apply lexCompare_eq in Eab; now subst.
  - destruct (lexCompare b c) eqn:Ebc; try easy.
    + apply lexCompare_eq in Ebc; subst. now rewrite Eab.
    + now rewrite (lexCompare_lt_trans a b c).
Qed.

Lemma collate_opp (a b : string) : collate b a = CompOpp (collate a b).
Proof.
  unfold collate.
  rewrite (lexCompare_opp (map fst (elements a)) (map fst (elements b))).
  rewrite (lexCompare_opp (map snd (elements a)) (map snd (elements b))).
  now destruct (lexCompare (map fst (elements a)) (map fst (elements b))).
Qed.

Lemma collate_le_trans (a b c : string) :
  collate a b <> Gt -> collate b c <> Gt -> collate a c <> Gt.
Proof.
  unfold collate. intros Hab Hbc.
  destruct (lexCompare (map fst (elements a)) (map fst (elements b))) eqn:Pab;
    try easy;
    destruct (lexCompare (map fst (elements b)) (map fst (elements c))) eqn:Pbc;
    try easy.
  - apply lexCompare_eq in Pab, Pbc. rewrite Pab, Pbc, lexCompare_refl.
    eapply lexCompare_le_trans; eauto.
  - apply lexCompare_eq in Pab. rewrite Pab, Pbc. easy.
  - apply lexCompare_eq in Pbc. rewrite <- Pbc, Pab. easy.
  - rewrite (lexCompare_lt_trans _ _ _ Pab Pbc). easy.
Qed.

Lemma localeCompare_opp (a b : string) :
  localeCompare b a = (- localeCompare a b)%Z.
Proof.
  unfold localeCompare. rewrite collate_opp. now destruct (collate a b).
Qed.

Lemma localeCompare_le (a b : string) :
  (localeCompare a b <= 0)%Z <-> collate a b <> Gt.
Proof.
  unfold localeCompare. destruct (collate a b); split; intros; try easy; lia.
Qed.

Lemma localeCompare_trans (a b c : string) :
  (localeCompare a b <= 0)%Z -> (localeCompare b c <= 0)%Z ->
  (localeCompare a c <= 0)%Z.
Proof.
  rewrite !localeCompare_le. apply collate_le_trans.
Qed.

End CollationFacts.

(** ** Sorting with a consistent comparator *)

Module SortFacts.

Section WithComparator.
Context {A : Type}.
Variable cmp : A -> A -> Z.
Hypothesis cmp_opp : forall x y, cmp y x = (- cmp x y)%Z.
Hypothesis cmp_trans :
  forall x y z, (cmp x y <= 0)%Z -> (cmp y z <= 0)%Z -> (cmp x z <= 0)%Z.

Local Abbreviation le := (JsArray.le cmp).
Local Abbreviation lt := (JsArray.lt cmp).
Local Abbreviation tieFree := (JsArray.tieFree cmp).

Lemma lt_trans x y z : lt x y -> lt y z -> lt x z.
Proof.
  unfold lt. intros Hxy Hyz.
  assert (cmp x z <= 0)%Z as Hle by (apply (cmp_trans x y z); lia).
  destruct (Z.eq_dec (cmp x z) 0) as [E|]; [|lia].
  assert (cmp z y <= 0)%Z as Hzy.
  { apply (cmp_trans z x y); [rewrite cmp_opp|]; lia. }
  rewrite cmp_opp in Hzy. lia.
Qed.

Lemma insert_perm x l : Permutation (insert cmp x l) (x :: l).
Proof.
  induction l as [|y l IH]; simpl; [reflexivity|].
  destruct (0 <? cmp x y)%Z; [|reflexivity].
  rewrite IH. apply perm_swap.
Qed.

Lemma sort_perm l : Permutation (sort cmp l) l.
Proof.
  induction l as [|x l IH]; simpl; [constructor|].
  rewrite insert_perm. now constructor.
Qed.

Lemma insert_sorted x l :
  StronglySorted le l -> StronglySorted le (insert cmp x l).
Proof.
  induction l as [|y l IH]; simpl; intros Hs.
  - repeat constructor.
  - inversion Hs as [|? ? Hl Hy]; subst.
    destruct (0 <? cmp x y)%Z eqn:E.
    + apply Z.ltb_lt in E. constructor; [auto|].
      eapply Permutation_Forall; [symmetry; apply insert_perm|].
      constructor; [|assumption].
      unfold le. rewrite cmp_opp. lia.
    + apply Z.ltb_ge in E. constructor; [assumption|].
      constructor; [exact E|].
      eapply Forall_impl; [|exact Hy].
      intros z Hz. apply (cmp_trans x y z); assumption.
Qed.

Lemma sort_sorted l : StronglySorted le (sort cmp l).
Proof.
  induction l as [|x l IH]; simpl; [constructor|now apply insert_sorted].
Qed.

Lemma insert_strict x l :
  StronglySorted lt l -> Forall (fun y => cmp x y <> 0%Z) l ->
  StronglySorted lt (insert cmp x l).
Proof.
  induction l as [|y l IH]; simpl; intros Hs Hx.
  - repeat constructor.
  - inversion Hs as [|? ? Hl Hy]; subst.
    inversion Hx as [|? ? Hxy Hxl]; subst.
    destruct (0 <? cmp x y)%Z eqn:E.
    + apply Z.ltb_lt in E. constructor; [auto|].
      eapply Permutation_Forall; [symmetry; apply insert_perm|].
      constructor; [|assumption].
      unfold lt. rewrite cmp_opp. lia.
    + apply Z.ltb_ge in E. constructor; [assumption|].
      assert (lt x y) as Hlt by (unfold lt; lia).
      constructor; [exact Hlt|].
      eapply Forall_impl; [|exact Hy].
      intros z Hz. now apply (lt_trans x y z).
Qed.

Lemma sort_strict l : tieFree l -> StronglySorted lt (sort cmp l).
Proof.
  induction l as [|x l IH]; simpl; [constructor|].
  intros [Hx Hl]. apply insert_strict; [auto|].
  eapply Permutation_Forall; [symmetry; apply sort_perm|exact Hx].
Qed.

(** A strictly sorted list is the only sorted arrangement of its
    entries. *)
Lemma sorted_unique l1 : forall l2,
  StronglySorted lt l1 -> StronglySorted le l2 -> Permutation l1 l2 ->
  l1 = l2.
Proof.
  induction l1 as [|a l1 IH]; intros l2 H1 H2 P.
  - apply Permutation_nil in P. now subst.
  - destruct l2 as [|b l2].
    { symmetry in P. now apply Permutation_nil in P. }
    inversion H1 as [|? ? H1' Ha]; subst.
    inversion H2 as [|? ? H2' Hb]; subst.
    assert (a = b) as ->.
    { assert (In a (b :: l2)) as Ia
          by (eapply Permutation_in; [exact P|now left]).
      assert (In b (a :: l1)) as Ib
          by (eapply Permutation_in; [symmetry; exact P|now left]).
      destruct Ia as [->|Ia]; [reflexivity|].
      destruct Ib as [->|Ib]; [reflexivity|].
      rewrite Forall_forall in Ha, Hb.
      specialize (Ha _ Ib). specialize (Hb _ Ia).
      unfold lt, le in *. rewrite cmp_opp in Hb. lia. }
    f_equal. apply IH; auto. eapply Permutation_cons_inv; eauto.
Qed.

(** Sorting forgets the order of its input when no two entries tie. *)
Lemma sort_order_independent l1 l2 :
  tieFree l1 -> Permutation l1 l2 -> sort cmp l1 = sort cmp l2.
Proof.
  intros Hf P. apply sorted_unique.
  - now apply sort_strict.
  - apply sort_sorted.
  - rewrite !sort_perm. exact P.
Qed.

End WithComparator.

(** Sortedness needs less of the comparator: only the signs of its
    results matter. *)
Section WithSignConsistentComparator.
Context {A : Type}.
Variable cmp : A -> A -> Z.
Hypothesis cmp_anti : forall x y, (0 < cmp x y)%Z -> (cmp y x < 0)%Z.
Hypothesis cmp_trans :
  forall x y z, (cmp x y <= 0)%Z -> (cmp y z <= 0)%Z -> (cmp x z <= 0)%Z.

Lemma insert_ordered x l :
  StronglySorted (JsArray.le cmp) l -> StronglySorted (JsArray.le cmp) (insert cmp x l).
Proof.
  induction l as [|y l IH]; simpl; intros Hs.
  - repeat constructor.
  - inversion Hs as [|? ? Hl Hy]; subst.
    destruct (0 <? cmp x y)%Z eqn:E.
    + apply Z.ltb_lt in E. constructor; [auto|].
      eapply Permutation_Forall; [symmetry; apply insert_perm|].
      constructor; [|assumption].
      unfold JsArray.le. apply cmp_anti in E. lia.
    + apply Z.ltb_ge in E. constructor; [assumption|].
      constructor; [exact E|].
      eapply Forall_impl; [|exact Hy].
      intros z Hz. apply (cmp_trans x y z); assumption.
Qed.

Lemma sort_ordered l : StronglySorted (JsArray.le cmp) (sort cmp l).
Proof.
  induction l as [|x l IH]; simpl; [constructor|now apply insert_ordered].
Qed.

End WithSignConsistentComparator.

Import StsClient CollationFacts.

Lemma model_consistent : Platform.consistent Platform.model.
Proof.
  split.
  - intros a b H. cbn in *. rewrite (localeCompare_opp a b). lia.
  - intros a b c. apply localeCompare_trans.
Qed.

Lemma byKey_opp (e1 e2 : string * string) : byKey e2 e1 = (- byKey e1 e2)%Z.
Proof. apply localeCompare_opp. Qed.

Lemma byKey_trans (e1 e2 e3 : string * string) :
  (byKey e1 e2 <= 0)%Z -> (byKey e2 e3 <= 0)%Z -> (byKey e1 e3 <= 0)%Z.
Proof. apply localeCompare_trans. Qed.

End SortFacts.

(** ** Reading and writing properties *)

Module ObjectFacts.

Import JsObject.

Lemma get_app (k : string) (a b : t) :
  get k (a ++ b)%list = match get k a with
                        | Some v => Some v
                        | None => get k b
                        end.
Proof.
  induction a as [|[k' v'] a IH]; simpl; [reflexivity|].
  destruct (k =? k'); auto.
Qed.

Lemma get_In (k v : string) (o : t) : get k o = Some v -> In (k, v) o.
Proof.
  induction o as [|[k' v'] o IH]; simpl; [discriminate|].
  destruct (k =? k') eqn:E.
  - apply String.eqb_eq in E. intros [= ->]. subst. now left.
  - intros H. right. auto.
Qed.

Lemma get_None (k : string) (o : t) : get k o = None <-> ~ In k (map fst o).
Proof.
  induction o as [|[k' v'] o IH]; simpl; [tauto|].
  destruct (k =? k') eqn:E.
  - apply String.eqb_eq in E. subst. split; [discriminate|tauto].
  - apply String.eqb_neq in E. rewrite IH. split; intros H; [intros [?|?]|];
      try congruence; tauto.
Qed.

Lemma In_get (k v : string) (o : t) : wf o -> In (k, v) o -> get k o = Some v.
Proof.
  unfold wf. induction o as [|[k' v'] o IH]; simpl; [tauto|].
  intros Hwf [H|H]; inversion Hwf as [|? ? Hn Hd]; subst.
  - injection H as -> ->. now rewrite String.eqb_refl.
  - destruct (k =? k') eqn:E; [|auto].
    apply String.eqb_eq in E. subst. exfalso. apply Hn.
    now apply (in_map fst) in H.
Qed.

Lemma update_keys (k v : string) (o : t) : map fst (update k v o) = map fst o.
Proof.
  induction o as [|[k' v'] o IH]; simpl; [reflexivity|].
  destruct (k =? k') eqn:E; simpl; [|now rewrite IH].
  apply String.eqb_eq in E. now subst.
Qed.

Lemma get_update_same (k v : string) (o : t) :
  get k o <> None -> get k (update k v o) = Some v.
Proof.
  induction o as [|[k' v'] o IH]; simpl; [congruence|].
  destruct (k =? k') eqn:E; simpl.
  - now rewrite String.eqb_refl.
  - now rewrite E.
Qed.

Lemma get_update_other (k k' v : string) (o : t) :
  k' <> k -> get k' (update k v o) = get k' o.
Proof.
  intros Hne. induction o as [|[k0 v0] o IH]; simpl; [reflexivity|].
  destruct (k =? k0) eqn:E; simpl.
  - apply String.eqb_eq in E. subst k0.
    apply String.eqb_neq in Hne. now rewrite Hne.
  - now rewrite IH.
Qed.

Lemma create_perm (k v : string) (o : t) : Permutation (create k v o) ((k, v) :: o).
Proof.
  induction o as [|[k' v'] o IH]; simpl.
  - destruct (arrayIndex k); reflexivity.
  - destruct (arrayIndex k) as [i|].
    + destruct (arrayIndex k') as [j|]; [|reflexivity].
      destruct (j <? i)%N; [|reflexivity].
      rewrite perm_swap. constructor.
      destruct o as [|e o']; simpl in *.
      * exact IH.
      * exact IH.
    + change ((k', v') :: o ++ [(k, v)])%list with (((k', v') :: o) ++ [(k, v)])%list.
      rewrite Permutation_app_comm. reflexivity.
Qed.

Lemma get_perm (k : string) (a b : t) :
  wf a -> Permutation a b -> get k a = get k b.
Proof.
  intros Ha P.
  assert (wf b) as Hb.
  { unfold wf in *. eapply Permutation_NoDup; [|exact Ha]. now apply Permutation_map. }
  destruct (get k a) as [v|] eqn:Ea.
  - symmetry. apply In_get; [exact Hb|].
    eapply Permutation_in; [exact P|]. now apply get_In.
  - symmetry. apply get_None. apply get_None in Ea. intros Hin. apply Ea.
    eapply Permutation_in; [|exact Hin]. apply Permutation_map. now symmetry.
Qed.

Lemma get_create_same (k v : string) (o : t) :
  get k o = None -> get k (create k v o) = Some v.
Proof.
  intros Hn.
  assert (wf' : ~ In k (map fst o)) by now apply get_None.
  destruct (get k (create k v o)) as [x|] eqn:E.
  - apply get_In in E.
    apply (Permutation_in _ (create_perm k v o)) in E.
    destruct E as [E|E]; [congruence|].
    exfalso. apply wf'. now apply (in_map fst) in E.
  - apply get_None in E. exfalso. apply E.
    eapply Permutation_in; [apply Permutation_map; symmetry; apply create_perm|].
    now left.
Qed.

Lemma create_eq (k v : string) (o : t) :
  create k v o =
  match arrayIndex k with
  | None => (o ++ [(k, v)])%list
  | Some i =>
      match o with
      | [] => [(k, v)]
      | (k', v') :: r =>
          match arrayIndex k' with
          | Some j => if (j <? i)%N then (k', v') :: create k v r else (k, v) :: o
          | None => (k, v) :: o
          end
      end
  end.
Proof. destruct o; reflexivity. Qed.

Lemma get_create_other (k k' v : string) (o : t) :
  k' <> k -> get k' (create k v o) = get k' o.
Proof.
  intros Hne. apply String.eqb_neq in Hne.
  induction o as [|[k0 v0] o IH]; rewrite create_eq.
  - destruct (arrayIndex k); simpl; now rewrite Hne.
  - destruct (arrayIndex k) as [i|] eqn:Ek.
    + destruct (arrayIndex k0) as [j|].
      * destruct (j <? i)%N; cbn [get]; [|now rewrite Hne].
        destruct (k' =? k0); [reflexivity|exact IH].
      * cbn [get]. now rewrite Hne.
    + rewrite get_app. destruct (get k' ((k0, v0) :: o)); [reflexivity|].
      simpl. now rewrite Hne.
Qed.

Lemma get_set_same (k v : string) (o : t) : get k (set k v o) = Some v.
Proof.
  unfold set. destruct (get k o) eqn:E.
  - apply get_update_same. congruence.
  - now apply get_create_same.
Qed.

Lemma get_set_other (k k' v : string) (o : t) :
  k' <> k -> get k' (set k v o) = get k' o.
Proof.
  intros Hne. unfold set. destruct (get k o).
  - now apply get_update_other.
  - now apply get_create_other.
Qed.

Lemma set_wf (k v : string) (o : t) : wf o -> wf (set k v o).
Proof.
  unfold wf, set. intros Hwf. destruct (get k o) eqn:E.
  - now rewrite update_keys.
  - eapply Permutation_NoDup.
    + apply Permutation_map. symmetry. apply create_perm.
    + simpl. constructor; [now apply get_None|exact Hwf].
Qed.

Lemma assign1_wf (target source : t) : wf target -> wf (assign1 target source).
Proof.
  unfold assign1, entries. revert target.
  induction source as [|[k v] s IH]; simpl; intros target Hwf; [exact Hwf|].
  apply IH. now apply set_wf.
Qed.

(** [Object.assign]: a property of the source wins over the target's. *)
Lemma get_assign1 (k : string) (target source : t) :
  wf source ->
  get k (assign1 target source) = match get k source with
                                  | Some v => Some v
                                  | None => get k target
                                  end.
Proof.
  unfold assign1, entries, wf. revert target.
  induction source as [|[k0 v0] s IH]; simpl; intros target Hwf; [reflexivity|].
  inversion Hwf as [|? ? Hn Hd]; subst.
  rewrite IH by exact Hd.
  destruct (k =? k0) eqn:E.
  - apply String.eqb_eq in E. subst k0.
    apply get_None in Hn. rewrite Hn. apply get_set_same.
  - apply String.eqb_neq in E. destruct (get k s); [reflexivity|].
    now apply get_set_other.
Qed.

(** Two objects with the same properties differ by their enumeration
    order only. *)
Lemma get_ext_perm (a b : t) :
  wf a -> wf b -> (forall k, get k a = get k b) -> Permutation a b.
Proof.
  intros Ha Hb Hget. apply NoDup_Permutation.
  - eapply NoDup_map_inv; exact Ha.
  - eapply NoDup_map_inv; exact Hb.
  - intros [k v]. split; intros H.
    + apply get_In. rewrite <- Hget. now apply In_get.
    + apply get_In. rewrite Hget. now apply In_get.
Qed.

End ObjectFacts.

(** ** Text *)

Module StringFacts.

Lemma append_assoc (a b c : string) : ((a ++ b) ++ c = a ++ b ++ c)%string.
Proof. induction a as [|x a IH]; simpl; [reflexivity|now rewrite IH]. Qed.

Lemma append_nil_r (a : string) : (a ++ "")%string = a.
Proof. induction a as [|x a IH]; simpl; [reflexivity|now rewrite IH]. Qed.

Lemma length_append (a b : string) :
  String.length (a ++ b) = String.length a + String.length b.
Proof. induction a as [|x a IH]; simpl; [reflexivity|now rewrite IH]. Qed.

End StringFacts.

(** ** Trimming *)

Module TrimFacts.

Lemma trimEnd_idem (s : string) : trimEnd (trimEnd s) = trimEnd s.
Proof.
  induction s as [|c s IH]; [reflexivity|]. cbn [trimEnd].
  destruct (isWhiteSpaceText (String c (trimEnd s))) eqn:E; [reflexivity|].
  cbn [trimEnd]. now rewrite IH, E.
Qed.

Lemma trimEnd_prefix (s : string) : exists q, s = trimEnd s ++ q.
Proof.
  induction s as [|c s [q Hq]]; [now exists ""|]. cbn [trimEnd].
  destruct (isWhiteSpaceText (String c (trimEnd s))).
  - now exists (String c s).
  - exists q. cbn [append]. now rewrite <- Hq.
Qed.

Lemma trimStart_fixed (s : string) :
  startsWithWhiteSpace s = false -> trimStart s = s.
Proof.
  destruct s as [|c1 [|c2 [|c3 r]]]; cbn [startsWithWhiteSpace trimStart];
    rewrite ?orb_false_r, ?orb_false_iff; intros H;
    repeat match goal with H : _ /\ _ |- _ => destruct H end;
    repeat match goal with H : _ = false |- _ => rewrite H; clear H end;
    reflexivity.
Qed.

Lemma trimStart_clean_aux (n : nat) : forall s,
  String.length s <= n -> startsWithWhiteSpace (trimStart s) = false.
Proof.
  induction n as [|n IH]; intros s Hn.
  - destruct s; [reflexivity|simpl in Hn; lia].
  - destruct s as [|c1 r1]; [reflexivity|]. cbn [trimStart]. simpl in Hn.
    destruct (isWhiteSpace c1) eqn:E1; [apply IH; lia|].
    destruct r1 as [|c2 r2]; [cbn; now rewrite E1|]. simpl in Hn.
    destruct (isWhiteSpace2 c1 c2) eqn:E2; [apply IH; lia|].
    destruct r2 as [|c3 r3]; [cbn; now rewrite E1, E2|]. simpl in Hn.
    destruct (isWhiteSpace3 c1 c2 c3) eqn:E3; [apply IH; lia|].
    cbn. now rewrite E1, E2, E3.
Qed.

Lemma trimStart_clean (s : string) : startsWithWhiteSpace (trimStart s) = false.
Proof. apply (trimStart_clean_aux (String.length s)). lia. Qed.

Lemma startsWithWhiteSpace_app (p q : string) :
  startsWithWhiteSpace p = true -> startsWithWhiteSpace (p ++ q) = true.
Proof.
  destruct p as [|c1 [|c2 [|c3 r]]]; cbn [startsWithWhiteSpace append];
    try discriminate;
    destruct (isWhiteSpace c1); try reflexivity; cbn [orb];
    try discriminate;
    destruct (isWhiteSpace2 c1 c2); try reflexivity; cbn [orb];
    try discriminate; auto.
Qed.

(** Trimming a trimmed text changes nothing. *)
Lemma trim_idem (s : string) : trim (trim s) = trim s.
Proof.
  unfold trim.
  assert (startsWithWhiteSpace (trimEnd (trimStart s)) = false) as H.
  { destruct (startsWithWhiteSpace (trimEnd (trimStart s))) eqn:E; [|reflexivity].
    destruct (trimEnd_prefix (trimStart s)) as [q Hq].
    apply (startsWithWhiteSpace_app _ q) in E. rewrite <- Hq in E.
    now rewrite trimStart_clean in E. }
  rewrite (trimStart_fixed _ H). apply trimEnd_idem.
Qed.

Lemma plain_not_lead (c1 : ascii) :
  isPlain c1 = true ->
  isWhiteSpace c1 = false
  /\ (forall c2, isWhiteSpace2 c1 c2 = false)
  /\ (forall c2 c3, isWhiteSpace3 c1 c2 c3 = false).
Proof.
  unfold isPlain. intros H. apply andb_true_iff in H. destruct H as [H1 H2].
  apply negb_true_iff in H1. apply N.ltb_lt in H2.
  split; [exact H1|]. split.
  - intros c2. unfold isWhiteSpace2.
    replace (JsString.code c1 =? 194)%N with false
      by (symmetry; apply N.eqb_neq; lia).
    reflexivity.
  - intros c2 c3. unfold isWhiteSpace3.
    replace (JsString.code c1 =? 225)%N with false
      by (symmetry; apply N.eqb_neq; lia).
    replace (JsString.code c1 =? 226)%N with false
      by (symmetry; apply N.eqb_neq; lia).
    replace (JsString.code c1 =? 227)%N with false
      by (symmetry; apply N.eqb_neq; lia).
    replace (JsString.code c1 =? 239)%N with false
      by (symmetry; apply N.eqb_neq; lia).
    reflexivity.
Qed.

Lemma trimEnd_plain (s : string) : allChars isPlain s = true -> trimEnd s = s.
Proof.
  induction s as [|c s IH]; [reflexivity|]. cbn [allChars trimEnd].
  intros H. apply andb_true_iff in H. destruct H as [Hc Hs].
  rewrite (IH Hs). destruct (plain_not_lead c Hc) as (H1 & H2 & H3).
  destruct s as [|c2 [|c3 [|c4 r]]]; cbn [isWhiteSpaceText];
    rewrite ?H1, ?H2, ?H3; reflexivity.
Qed.

(** A text of ASCII characters without white space is its own trim. *)
Lemma trim_plain (s : string) : allChars isPlain s = true -> trim s = s.
Proof.
  intros H. unfold trim.
  assert (trimStart s = s) as ->; [|now apply trimEnd_plain].
  apply trimStart_fixed. destruct s as [|c1 r]; [reflexivity|].
  cbn [allChars] in H. apply andb_true_iff in H. destruct H as [Hc _].
  destruct (plain_not_lead c1 Hc) as (H1 & H2 & H3).
  cbn [startsWithWhiteSpace]. rewrite H1.
  destruct r as [|c2 [|c3 r]]; rewrite ?H2, ?H3; reflexivity.
Qed.

End TrimFacts.

(* ================================================================== *)
(** ** The canonicalizer *)

Module CanonicalizerFacts.

Import JsObject Crypto StsClient StringFacts SortFacts ObjectFacts.

(** C1, as the code has it.  The canonical request is the seven fields
    method, URI path, canonical query string, canonical header string, an
    empty separator field, signed header names and payload hash, in this
    order and joined by single line feeds: every field but the last, the
    payload hash, is followed by one line feed, whatever the fields hold:
    an empty query string and an empty header string keep their lines.  The text of
    the specification, which ends every field with a line feed, is this one
    with a line feed appended. *)
Theorem canonicalRequest_layout
        (this : StsClient.t) (method : Method) (uri : string)
        (headers query : JsObject.t) (payload : option JsObject.t)
        (timeString nonce : string) :
  let signed := hashedHeaders this headers payload timeString nonce in
  canonicalRequest this method uri headers query payload timeString nonce
  = join LF [ methodText method; uri; canonicalQueryString query;
              canonicalHeaderString signed; "";
              canonicalHeaderNameString signed; payloadHashString payload ]
  /\ Specification.specCanonicalRequest
       (methodText method) uri (canonicalQueryString query)
       (canonicalHeaderString signed) (canonicalHeaderNameString signed)
       (payloadHashString payload)
     = canonicalRequest this method uri headers query payload timeString nonce ++ LF
  /\ (forall m u names hash,
         canonicalRequestText m u "" "" names hash
         = m ++ LF ++ u ++ LF ++ LF ++ LF ++ LF ++ names ++ LF ++ hash).
Proof.
  intros signed. split; [|split].
  - reflexivity.
  - unfold canonicalRequest, canonicalRequestText, Specification.specCanonicalRequest.
    fold signed. cbn [map String.concat].
    rewrite !append_assoc. reflexivity.
  - reflexivity.
Qed.

(** C1, counterexample.  For a POST to [/] without headers, query or
    body, the canonical request is not the text that ends every field,
    the payload hash included, with a line feed. *)
Lemma canonicalRequest_not_newline_terminated :
  let this := mkClient "sts.aliyuncs.com" "id" "secret" in
  let signed := hashedHeaders this [] None "2024-01-01T00:00:00Z" "1704067200000" in
  canonicalRequest this POST "/" [] [] None "2024-01-01T00:00:00Z" "1704067200000"
  <> Specification.specCanonicalRequest
       (methodText POST) "/" (canonicalQueryString [])
       (canonicalHeaderString signed) (canonicalHeaderNameString signed)
       (payloadHashString None).
Proof.
  intros this signed H.
  apply (f_equal String.length) in H. vm_compute in H. discriminate H.
Qed.

(** C2: the code does not sort the query by byte or code point order.
    Line 210 compares the keys with [localeCompare], the collation of the
    locale, in which a lower-case letter comes before the upper-case
    letters that follow it in the alphabet.  For the query mapping a: 1,
    B: 2 the code gives [a=1&B=2], where sorting by byte order, as the
    specification asks, gives [B=2&a=1]; on the mapping b: 2, a: 1 of the
    specification the two agree. *)
Theorem canonicalQueryString_not_byte_order :
  canonicalQueryString [("a", "1"); ("B", "2")] = "a=1&B=2"
  /\ Specification.specCanonicalQueryString [("a", "1"); ("B", "2")] = "B=2&a=1"
  /\ canonicalQueryString [("a", "1"); ("B", "2")]
     <> Specification.specCanonicalQueryString [("a", "1"); ("B", "2")]
  /\ canonicalQueryString [("b", "2"); ("a", "1")] = "a=1&b=2"
  /\ Specification.specCanonicalQueryString [("b", "2"); ("a", "1")] = "a=1&b=2".
Proof.
  split; [reflexivity|]. split; [reflexivity|]. split; [discriminate|].
  split; reflexivity.
Qed.

Lemma isSigned_spec (e : string * string) :
  isSigned e = true <-> fst e = "host" \/ startsWith (fst e) "x-acs-" = true.
Proof.
  unfold isSigned. rewrite orb_true_iff, String.eqb_eq. reflexivity.
Qed.

(** C3.  Whatever [toLowerCase], [trim] and [localeCompare] of the runtime
    are, the signed headers are exactly the entries of the header mapping
    whose lower-cased name is [host] or starts with [x-acs-], with the name
    lower-cased and the value trimmed; they are a rearrangement of those
    entries, sorted by lower-cased name in the order of [localeCompare]
    when that comparator is consistent; the canonical header string joins
    their [name:value] lines with line feeds and the signed-header-names
    string joins the same names with semicolons.  The functions of the
    client are these at the runtime modelled here.  There, the headers
    Host: x, X-Acs-Date: t, Unrelated: y give the lines of [host] and
    [x-acs-date] and the names [host;x-acs-date]; and names in upper case
    and values wrapped in spaces, a tab, a line feed and a no-break space
    give the lower-cased names and the values without them, white space
    inside a value being kept. *)
Theorem canonicalHeaders_spec (P : Platform.t) (allHeaders : JsObject.t) :
  let signed := canonicalHeadersOn P allHeaders in
  (forall name value,
      In (name, value) signed <->
      exists k v, In (k, v) (entries allHeaders)
                  /\ name = Platform.toLowerCase P k /\ value = Platform.trim P v
                  /\ (name = "host" \/ startsWith name "x-acs-" = true))
  /\ Permutation signed (filter isSigned (map (lowerTrimOn P) (entries allHeaders)))
  /\ (Platform.consistent P ->
      StronglySorted
        (fun e1 e2 => (Platform.localeCompare P (fst e1) (fst e2) <= 0)%Z) signed)
  /\ canonicalHeaderStringOn P allHeaders
     = join LF (map (fun e => fst e ++ ":" ++ snd e) signed)
  /\ canonicalHeaderNameStringOn P allHeaders = join ";" (map fst signed)
  /\ (canonicalHeaders allHeaders = canonicalHeadersOn Platform.model allHeaders
      /\ canonicalHeaderString allHeaders
         = canonicalHeaderStringOn Platform.model allHeaders
      /\ canonicalHeaderNameString allHeaders
         = canonicalHeaderNameStringOn Platform.model allHeaders)
  /\ canonicalHeaderString [("Host", "x"); ("X-Acs-Date", "t"); ("Unrelated", "y")]
     = "host:x" ++ LF ++ "x-acs-date:t"
  /\ canonicalHeaderNameString [("Host", "x"); ("X-Acs-Date", "t"); ("Unrelated", "y")]
     = "host;x-acs-date"
  /\ canonicalHeaders [ ("X-ACS-Date", " t" ++ NBSP);
                        ("HOST", TAB ++ "a b" ++ LF ++ " ");
                        ("Unrelated", " y ") ]
     = [ ("host", "a b"); ("x-acs-date", "t") ].
Proof.
  intros signed.
  assert (Permutation signed
            (filter isSigned (map (lowerTrimOn P) (entries allHeaders))))
    as Hp by apply sort_perm.
  split; [|split; [exact Hp|split]].
  - intros name value. split.
    + intros H. apply (Permutation_in _ Hp) in H.
      apply filter_In in H. destruct H as [H Hs].
      apply in_map_iff in H. destruct H as [[k v] [E H]].
      unfold lowerTrimOn in E. simpl in E. injection E as <- <-.
      exists k, v. repeat split; [exact H|]. now apply isSigned_spec in Hs.
    + intros (k & v & H & -> & -> & Hs).
      apply (Permutation_in _ (Permutation_sym Hp)).
      apply filter_In. split.
      * apply in_map_iff. exists (k, v). now split.
      * now apply isSigned_spec.
  - intros [Hanti Htrans].
    apply (sort_ordered (byKeyOn P)).
    + intros x y. apply Hanti.
    + intros x y z. apply Htrans.
  - repeat split.
Qed.

(** C3 at the runtime of this file, whose comparator is consistent, and
    the headers of the last example. *)
Lemma canonicalHeaders_spec_witness :
  let headers := [ ("X-ACS-Date", (" t" ++ NBSP)%string);
                   ("HOST", (TAB ++ "a b" ++ LF ++ " ")%string);
                   ("Unrelated", " y ") ] in
  Platform.consistent Platform.model
  /\ StronglySorted
       (fun e1 e2 => (Platform.localeCompare Platform.model (fst e1) (fst e2) <= 0)%Z)
       (canonicalHeadersOn Platform.model headers)
  /\ canonicalHeaderStringOn Platform.model headers
     = join LF (map (fun e => fst e ++ ":" ++ snd e)
                    (canonicalHeadersOn Platform.model headers)).
Proof.
  intros headers.
  destruct (canonicalHeaders_spec Platform.model headers)
    as (_ & _ & Hsorted & Hstring & _).
  split; [exact model_consistent|].
  split; [exact (Hsorted model_consistent)|exact Hstring].
Defined.

End CanonicalizerFacts.

(* ================================================================== *)
(** ** The header object through [doRequest] *)

Module HeaderFacts.

Import JsObject Crypto StsClient StringFacts ObjectFacts.

Lemma defaultHeaders_wf : wf defaultHeaders.
Proof.
  unfold wf, defaultHeaders. simpl.
  repeat constructor; simpl; intuition discriminate.
Qed.

(** The merge of line 202: the caller's header, else the client's
    default, else the injected one. *)
Lemma get_mergedHeaders (this : StsClient.t) (headers : JsObject.t)
      (timeString nonce k : string) :
  wf headers ->
  get k (mergedHeaders this headers timeString nonce)
  = match get k headers with
    | Some v => Some v
    | None =>
        match get k defaultHeaders with
        | Some v => Some v
        | None => get k [ ("x-acs-signature-nonce", nonce);
                          ("x-acs-date", timeString);
                          ("host", endpoint this) ]
        end
    end.
Proof.
  intros Hwf. unfold mergedHeaders, assign. cbn [fold_left].
  rewrite get_assign1 by exact Hwf.
  rewrite get_assign1 by exact defaultHeaders_wf.
  reflexivity.
Qed.

Lemma mergedHeaders_wf (this : StsClient.t) (headers : JsObject.t)
      (timeString nonce : string) :
  wf (mergedHeaders this headers timeString nonce).
Proof.
  unfold mergedHeaders, assign. cbn [fold_left].
  apply assign1_wf, assign1_wf.
  unfold wf. simpl. repeat constructor; simpl; intuition discriminate.
Qed.

(** What the later assignments leave of the merged headers. *)
Lemma get_allHeaders_other
      (this : StsClient.t) (method : Method) (uri : string)
      (headers query : JsObject.t) (payload : option JsObject.t)
      (timeString nonce k : string) :
  k <> "Content-Type" -> k <> "Content-Length" ->
  k <> "Authorization" -> k <> "x-acs-content-sha256" ->
  get k (allHeaders this method uri headers query payload timeString nonce)
  = get k (mergedHeaders this headers timeString nonce).
Proof.
  intros H1 H2 H3 H4. unfold allHeaders.
  rewrite get_set_other by exact H1.
  destruct (0 <? String.length (payloadString payload))%nat.
  - rewrite (get_set_other "Content-Length") by exact H2.
    rewrite get_set_other by exact H3.
    unfold hashedHeaders. now rewrite get_set_other by exact H4.
  - rewrite get_set_other by exact H3.
    unfold hashedHeaders. now rewrite get_set_other by exact H4.
Qed.

Lemma get_allHeaders_contentHash
      (this : StsClient.t) (method : Method) (uri : string)
      (headers query : JsObject.t) (payload : option JsObject.t)
      (timeString nonce : string) :
  get "x-acs-content-sha256"
      (allHeaders this method uri headers query payload timeString nonce)
  = Some (payloadHashString payload).
Proof.
  unfold allHeaders.
  rewrite get_set_other by discriminate.
  destruct (0 <? String.length (payloadString payload))%nat.
  - rewrite !get_set_other by discriminate. apply get_set_same.
  - rewrite get_set_other by discriminate. apply get_set_same.
Qed.

Lemma get_allHeaders_authorization
      (this : StsClient.t) (method : Method) (uri : string)
      (headers query : JsObject.t) (payload : option JsObject.t)
      (timeString nonce : string) :
  get "Authorization"
      (allHeaders this method uri headers query payload timeString nonce)
  = Some (authorizationHeader this method uri headers query payload timeString nonce).
Proof.
  unfold allHeaders.
  rewrite get_set_other by discriminate.
  destruct (0 <? String.length (payloadString payload))%nat.
  - rewrite get_set_other by discriminate. apply get_set_same.
  - apply get_set_same.
Qed.

End HeaderFacts.

(* ================================================================== *)
(** ** The signer *)

Module SignerFacts.

Import JsObject Crypto StsClient StringFacts ObjectFacts.

Lemma allChars_append (p : ascii -> bool) (a b : string) :
  allChars p (a ++ b) = allChars p a && allChars p b.
Proof.
  induction a as [|c a IH]; simpl; [reflexivity|].
  now rewrite IH, andb_assoc.
Qed.

Lemma hexOfByte_lower (b : byte) : allChars isLowerHex (hexOfByte b) = true.
Proof. destruct b; reflexivity. Qed.

Lemma encodeHex_lower (l : list byte) : allChars isLowerHex (encodeHex l) = true.
Proof.
  induction l as [|b l IH]; cbn [encodeHex]; [reflexivity|].
  now rewrite allChars_append, hexOfByte_lower, IH.
Qed.

Lemma length_encodeHex (l : list byte) :
  String.length (encodeHex l) = 2 * List.length l.
Proof.
  induction l as [|b l IH]; cbn [encodeHex]; [reflexivity|].
  rewrite length_append, IH. cbn [List.length hexOfByte String.length]. lia.
Qed.

Lemma length_sha256 (msg : list byte) : List.length (sha256 msg) = 32.
Proof.
  unfold sha256.
  generalize (fold_left compress
                (blocks (List.length (wordsOfBytes (pad (map to_N msg))))
                        (wordsOfBytes (pad (map to_N msg)))) initialHash).
  intros s. reflexivity.
Qed.

Lemma length_hmacSha256 (key msg : list byte) : List.length (hmacSha256 key msg) = 32.
Proof. unfold hmacSha256. apply length_sha256. Qed.

(** The implementations agree with the published vectors: FIPS 180-4 for
    the message abc and RFC 4231, test case 2. *)
Example sha256_abc :
  encodeHex (sha256 (TextEncoder_encode "abc"))
  = "ba7816bf8f01cfea414140de5dae2223b00361a396177a9cb410ff61f20015ad".
Proof. vm_compute. reflexivity. Qed.

Example hmac_rfc4231_case2 :
  hmac "Jefe" "what do ya want for nothing?"
  = "5bdcc146bf60754e6a042426089575c75a003f089d2739839dec58b964ec3843".
Proof. vm_compute. reflexivity. Qed.

(** C4.  Without a body, and with a body of no fields, the payload hash
    is the SHA-256 digest of the empty byte sequence; and in every request
    the header [x-acs-content-sha256] handed to fetch holds the payload
    hash, the hex digest of the bytes of the body. *)
Theorem payloadHash_spec
        (this : StsClient.t) (method : Method) (uri : string)
        (headers query : JsObject.t) (payload : option JsObject.t)
        (timeString nonce : string) :
  payloadHashString None
  = "e3b0c44298fc1c149afbf4c8996fb92427ae41e4649b934ca495991b7852b855"
  /\ payloadHashString (Some [])
     = "e3b0c44298fc1c149afbf4c8996fb92427ae41e4649b934ca495991b7852b855"
  /\ payloadHashString payload
     = encodeHex (sha256 (TextEncoder_encode (payloadString payload)))
  /\ get "x-acs-content-sha256"
         (allHeaders this method uri headers query payload timeString nonce)
     = Some (payloadHashString payload).
Proof.
  split; [vm_compute; reflexivity|].
  split; [vm_compute; reflexivity|].
  split; [reflexivity|].
  apply HeaderFacts.get_allHeaders_contentHash.
Qed.

(** C5.  The string to sign is the line [ACS3-HMAC-SHA256], a line feed,
    and the lower-case hex SHA-256 digest of the canonical request text;
    the signature is the lower-case hex text of HMAC-SHA256 keyed by the
    UTF-8 bytes of the secret itself and applied to the bytes of the string
    to sign.  Both hex texts have 64 digits. *)
Theorem signature_spec (secret canonicalRequest : string) :
  let digest := encodeHex (sha256 (TextEncoder_encode canonicalRequest)) in
  let signature := sigString secret canonicalRequest in
  string2sign canonicalRequest = "ACS3-HMAC-SHA256" ++ LF ++ digest
  /\ allChars isLowerHex digest = true
  /\ String.length digest = 64
  /\ signature = encodeHex (hmacSha256 (TextEncoder_encode secret)
                              (TextEncoder_encode (string2sign canonicalRequest)))
  /\ allChars isLowerHex signature = true
  /\ String.length signature = 64.
Proof.
  intros digest signature.
  split; [reflexivity|].
  split; [apply encodeHex_lower|].
  split; [unfold digest; now rewrite length_encodeHex, length_sha256|].
  split; [reflexivity|].
  split; [apply encodeHex_lower|].
  unfold signature, sigString, hmac.
  now rewrite length_encodeHex, length_hmacSha256.
Qed.

(** C6.  The authorization header value is one string: the algorithm
    identifier, one space, then [Credential=] with the access key ID,
    [SignedHeaders=] with the signed header names and [Signature=] with the
    signature, separated by commas, without a space around [=] or after a
    comma. *)
Theorem authorizationHeader_layout
        (this : StsClient.t) (method : Method) (uri : string)
        (headers query : JsObject.t) (payload : option JsObject.t)
        (timeString nonce : string) :
  authorizationHeader this method uri headers query payload timeString nonce
  = "ACS3-HMAC-SHA256" ++ " "
      ++ "Credential=" ++ accessKeyId this ++ ","
      ++ "SignedHeaders="
      ++ canonicalHeaderNameString (hashedHeaders this headers payload timeString nonce)
      ++ ","
      ++ "Signature="
      ++ sigString (accessKeySecret this)
           (canonicalRequest this method uri headers query payload timeString nonce).
Proof. reflexivity. Qed.

End SignerFacts.

(* ================================================================== *)
(** ** The outgoing headers and the body of [assumeRole] *)

Module RequestFacts.

Import JsObject Crypto StsClient StringFacts ObjectFacts HeaderFacts.

(** C10.  A header of the caller replaces the injected [host],
    [x-acs-date] and [x-acs-signature-nonce] and the client's defaults of
    the same name, which are sent only when the caller gives none; the
    headers [x-acs-content-sha256] and [Authorization] are assigned after
    the merge and hold the computed payload hash and authorization value
    whatever the caller supplied under these names. *)
Theorem outgoingHeaders_precedence
        (this : StsClient.t) (method : Method) (uri : string)
        (headers query : JsObject.t) (payload : option JsObject.t)
        (timeString nonce : string) :
  wf headers ->
  let sent := allHeaders this method uri headers query payload timeString nonce in
  let orElse (k fallback : string) :=
      match get k headers with
      | Some v => Some v
      | None => Some fallback
      end in
  (forall k v, get k headers = Some v ->
               get k (mergedHeaders this headers timeString nonce) = Some v)
  /\ get "host" sent = orElse "host" (endpoint this)
  /\ get "x-acs-date" sent = orElse "x-acs-date" timeString
  /\ get "x-acs-signature-nonce" sent = orElse "x-acs-signature-nonce" nonce
  /\ get "x-sdk-client" sent = orElse "x-sdk-client" "deno/1.0.0"
  /\ get "x-acs-version" sent = orElse "x-acs-version" "2015-04-01"
  /\ get "Accept" sent = orElse "Accept" "application/json"
  /\ get "x-acs-content-sha256" sent = Some (payloadHashString payload)
  /\ get "Authorization" sent
     = Some (authorizationHeader this method uri headers query payload timeString nonce).
Proof.
  intros Hwf sent orElse.
  split.
  { intros k v Hk. rewrite get_mergedHeaders by exact Hwf. now rewrite Hk. }
  repeat split;
    try (unfold sent; rewrite get_allHeaders_other by discriminate;
         rewrite get_mergedHeaders by exact Hwf;
         unfold orElse; match goal with |- context [get ?k headers] =>
           destruct (get k headers); reflexivity end).
  - apply get_allHeaders_contentHash.
  - apply get_allHeaders_authorization.
Qed.

(** C10, at a caller who sets [host] and [Authorization]: the first is
    kept, the second is replaced by the computed value. *)
Lemma outgoingHeaders_precedence_witness :
  let this := mkClient "sts.aliyuncs.com" "id" "secret" in
  let headers := [("host", "example.com"); ("Authorization", "mine")] in
  wf headers
  /\ get "host" (allHeaders this POST "/" headers [] None "T" "N") = Some "example.com"
  /\ get "Authorization" (allHeaders this POST "/" headers [] None "T" "N")
     = Some (authorizationHeader this POST "/" headers [] None "T" "N").
Proof.
  intros this headers.
  assert (wf headers) as Hwf.
  { unfold wf, headers. simpl. repeat constructor; simpl; intuition discriminate. }
  split; [exact Hwf|].
  pose proof (outgoingHeaders_precedence this POST "/" headers [] None "T" "N" Hwf) as H.
  cbv zeta in H.
  destruct H as (_ & Hhost & _ & _ & _ & _ & _ & _ & Hauth).
  split; [exact Hhost|exact Hauth].
Defined.

Lemma assumeRolePayload_nonempty (config : AssumeRoleRequest) :
  (0 <? String.length (payloadString (Some (assumeRolePayload config))))%nat = true.
Proof.
  destruct config as [d p a n x]. unfold assumeRolePayload. simpl.
  destruct p as [p|]; destruct x as [x|];
    try destruct (0 <? String.length x)%nat; reflexivity.
Qed.

Lemma get_assumeRolePayload_policy (config : AssumeRoleRequest) :
  get "Policy" (assumeRolePayload config)
  = match policy config with
    | Some p => Some (Json.stringify (JObject p))
    | None => None
    end.
Proof.
  destruct config as [d p a n x]. unfold assumeRolePayload. simpl.
  destruct p as [p|]; destruct x as [x|];
    try destruct (0 <? String.length x)%nat;
    rewrite ?(get_set_other "ExternalId") by discriminate;
    try apply get_set_same; reflexivity.
Qed.

(** The policy of the test suite, as it goes on the wire. *)
Example policy_of_test_suite :
  encodeURIComponent
    (Json.stringify
       (JObject [ ("Version", JString "1");
                  ("Statement",
                   JArray [ JObject [ ("Action", JArray [JString "oss:*"]);
                                      ("Effect", JString "Allow");
                                      ("Resource", JArray [JString "acs:oss:*:*:xxxxxx"]) ] ]) ]))
  = "%7B%22Version%22%3A%221%22%2C%22Statement%22%3A%5B%7B%22Action%22%3A%5B%22oss%3A*%22%5D%2C%22Effect%22%3A%22Allow%22%2C%22Resource%22%3A%5B%22acs%3Aoss%3A*%3A*%3Axxxxxx%22%5D%7D%5D%7D".
Proof. vm_compute. reflexivity. Qed.

(** C9.  When the request has a policy, [assumeRole] puts its JSON text,
    as [JSON.stringify] gives it and for whatever the policy holds, in the
    form mapping of the body under the key [Policy]; when the policy is
    [null] the mapping has no [Policy] key.  The call goes on to [fetch]
    when the signal of the timeout can be made, and the body it hands over
    is then the form encoding of that mapping. *)
Theorem assumeRole_policy
        (this : StsClient.t) (config : AssumeRoleRequest)
        (options : option RequestOptions) (timeString nonce : string)
        (fetch : string -> RequestInit -> Completion Response) :
  let payload := assumeRolePayload config in
  match policy config with
  | Some p =>
      get "Policy" payload = Some (Json.stringify (JObject p))
      /\ In (encodeURIComponent "Policy" ++ "="
               ++ encodeURIComponent (Json.stringify (JObject p)))
            (map formPair (entries payload))
  | None => get "Policy" payload = None
  end
  /\ assumeRole this config options timeString nonce fetch
     = Js.bind (AbortSignal_timeout (effectiveTimeout options))
         (fun _ =>
            handleResponse
              (fetch ("https://" ++ endpoint this ++ "/")
                     (mkRequestInit POST
                        (allHeaders this POST "/" assumeRoleHeaders []
                                    (Some payload) timeString nonce)
                        false (effectiveTimeout options)
                        (Some (TextEncoder_encode
                                 (join "&" (map formPair (entries payload)))))))).
Proof.
  intros payload. split.
  - pose proof (get_assumeRolePayload_policy config) as H. fold payload in H.
    destruct (policy config) as [p|]; [|exact H].
    split; [exact H|].
    apply get_In in H.
    apply (in_map formPair) in H. exact H.
  - unfold assumeRole, doRequest, requestInit, fullUrl.
    fold payload. unfold payload at 2.
    rewrite assumeRolePayload_nonempty. reflexivity.
Qed.

End RequestFacts.

(* ================================================================== *)
(** ** The response *)

Module ResponseFacts.

Import StsClient.

Lemma prop_member (v : Json.value) (key : string) :
  v <> JNull -> prop (Some v) key = Normal (member v key).
Proof. destruct v; intros H; try reflexivity. now contradiction H. Qed.






End ResponseFacts.

(* ================================================================== *)
(** ** The enumeration order of the header mapping *)

Module OrderFacts.

Import JsObject Crypto StsClient.

(** C8: the signature depends on the enumeration order of the header
    mapping.  The two header mappings below hold the same two entries,
    inserted in the two orders.  Both names lower-case to [x-acs-foo], the
    code does not merge them, and the sort, which is stable, keeps entries
    of equal name in their enumeration order: the canonical header strings
    list the two lines in the two orders, and the canonical requests and
    the authorization header values of the two calls differ, everything
    else being the same. *)
Theorem canonicalRequest_depends_on_header_order :
  let this := mkClient "sts.aliyuncs.com" "id" "secret" in
  let h1 := [("X-Acs-Foo", "1"); ("x-acs-foo", "2")] in
  let h2 := [("x-acs-foo", "2"); ("X-Acs-Foo", "1")] in
  let time := "2024-01-01T00:00:00Z" in
  let nonce := "1704067200000" in
  wf h1 /\ wf h2 /\ Permutation h1 h2
  /\ (forall k, get k h1 = get k h2)
  /\ canonicalHeaderString [("X-Acs-Foo", "1"); ("x-acs-foo", "2")]
     = "x-acs-foo:1" ++ LF ++ "x-acs-foo:2"
  /\ canonicalHeaderString [("x-acs-foo", "2"); ("X-Acs-Foo", "1")]
     = "x-acs-foo:2" ++ LF ++ "x-acs-foo:1"
  /\ canonicalRequest this POST "/" h1 [] None time nonce
     <> canonicalRequest this POST "/" h2 [] None time nonce
  /\ authorizationHeader this POST "/" h1 [] None time nonce
     <> authorizationHeader this POST "/" h2 [] None time nonce.
Proof.
  cbv zeta.
  assert (wf [("X-Acs-Foo", "1"); ("x-acs-foo", "2")]) as W1.
  { unfold wf. simpl. repeat constructor; simpl; intuition discriminate. }
  assert (wf [("x-acs-foo", "2"); ("X-Acs-Foo", "1")]) as W2.
  { unfold wf. simpl. repeat constructor; simpl; intuition discriminate. }
  split; [exact W1|]. split; [exact W2|]. split; [apply perm_swap|].
  split; [|split; [reflexivity|split; [reflexivity|split]]].
  - intros k. cbn [get fst snd].
    destruct (String.eqb_spec k "X-Acs-Foo") as [->|]; [reflexivity|].
    destruct (k =? "x-acs-foo")%string; reflexivity.
  - apply String.eqb_neq. vm_compute. reflexivity.
  - apply String.eqb_neq. vm_compute. reflexivity.
Qed.

End OrderFacts.

(* ================================================================== *)
(** ** The form encoding of the body and of the query *)

Module WireFacts.

Import JsObject Crypto StsClient StringFacts Wire.

Lemma allChars_impl (p q : ascii -> bool) (s : string) :
  (forall c, p c = true -> q c = true) ->
  allChars p s = true -> allChars q s = true.
Proof.
  intros Hpq. induction s as [|c s IH]; simpl; [reflexivity|].
  rewrite !andb_true_iff. intros [Hc Hs]. split; auto.
Qed.

Lemma percentEncode_safe (c : ascii) : allChars isUriSafe (percentEncode c) = true.
Proof. destruct c as [[|] [|] [|] [|] [|] [|] [|] [|]]; reflexivity. Qed.

Lemma encodeURIComponent_safe (s : string) :
  allChars isUriSafe (encodeURIComponent s) = true.
Proof.
  induction s as [|c s IH]; cbn [encodeURIComponent]; [reflexivity|].
  rewrite SignerFacts.allChars_append, IH, andb_true_r.
  destruct (uriUnreserved c) eqn:E.
  - cbn. unfold isUriSafe. now rewrite E.
  - apply percentEncode_safe.
Qed.

Lemma isUriSafe_avoids (sep : ascii) (s : string) :
  isUriSafe sep = false -> allChars isUriSafe s = true -> avoids sep s = true.
Proof.
  intros Hsep. apply allChars_impl. intros c Hc.
  destruct (Ascii.eqb_spec c sep) as [->|]; [congruence|reflexivity].
Qed.

Lemma encodeURIComponent_avoids_amp (s : string) :
  avoids "&" (encodeURIComponent s) = true.
Proof. apply isUriSafe_avoids; [reflexivity|apply encodeURIComponent_safe]. Qed.

Lemma encodeURIComponent_avoids_eq (s : string) :
  avoids "=" (encodeURIComponent s) = true.
Proof. apply isUriSafe_avoids; [reflexivity|apply encodeURIComponent_safe]. Qed.

(** A string without the separator is cut at the first separator of a
    longer text in one way only. *)
Lemma cut_unique (sep : ascii) (x y r r' : string) :
  avoids sep x = true -> avoids sep y = true ->
  x ++ String sep r = y ++ String sep r' -> x = y /\ r = r'.
Proof.
  unfold avoids. revert y.
  induction x as [|a x IH]; intros [|b y]; simpl; intros Hx Hy E.
  - injection E as ->. now split.
  - injection E as <- _. now rewrite Ascii.eqb_refl in Hy.
  - injection E as -> _. now rewrite Ascii.eqb_refl in Hx.
  - injection E as -> E.
    apply andb_true_iff in Hx, Hy.
    destruct (IH y (proj2 Hx) (proj2 Hy) E) as [-> ->]. now split.
Qed.

Lemma cut_absurd (sep : ascii) (x y r : string) :
  avoids sep x = true -> x <> y ++ String sep r.
Proof.
  unfold avoids. intros Hx ->.
  rewrite SignerFacts.allChars_append in Hx. simpl in Hx.
  rewrite Ascii.eqb_refl in Hx. simpl in Hx.
  now rewrite andb_false_r in Hx.
Qed.

Lemma hexDigitUpper_inj (n m : N) :
  (n < 16)%N -> (m < 16)%N -> hexDigitUpper n = hexDigitUpper m -> n = m.
Proof.
  intros Hn Hm E. apply (f_equal N_of_ascii) in E. unfold hexDigitUpper in E.
  destruct (n <? 10)%N eqn:En; destruct (m <? 10)%N eqn:Em;
    rewrite !N_ascii_embedding in E by lia;
    try apply N.ltb_lt in En; try apply N.ltb_lt in Em;
    try apply N.ltb_ge in En; try apply N.ltb_ge in Em; lia.
Qed.

Lemma code_lt_256 (c : ascii) : (JsString.code c < 256)%N.
Proof. apply N_ascii_bounded. Qed.

Lemma percentEncode_inj (c c' : ascii) : percentEncode c = percentEncode c' -> c = c'.
Proof.
  unfold percentEncode. intros E. injection E as E1 E2.
  pose proof (code_lt_256 c) as Hc. pose proof (code_lt_256 c') as Hc'.
  apply hexDigitUpper_inj in E1;
    [|apply N.Div0.div_lt_upper_bound; lia|apply N.Div0.div_lt_upper_bound; lia].
  apply hexDigitUpper_inj in E2; [|apply N.mod_lt; lia|apply N.mod_lt; lia].
  assert (JsString.code c = JsString.code c') as E.
  { rewrite (N.div_mod (JsString.code c) 16), (N.div_mod (JsString.code c') 16) by lia.
    now rewrite E1, E2. }
  unfold JsString.code in E. rewrite <- (ascii_N_embedding c), <- (ascii_N_embedding c').
  now rewrite E.
Qed.

Lemma encodeURIComponent_inj (s s' : string) :
  encodeURIComponent s = encodeURIComponent s' -> s = s'.
Proof.
  revert s'. induction s as [|c s IH]; intros [|c' s']; cbn [encodeURIComponent].
  - reflexivity.
  - destruct (uriUnreserved c'); discriminate.
  - destruct (uriUnreserved c); discriminate.
  - destruct (uriUnreserved c) eqn:Ec; destruct (uriUnreserved c') eqn:Ec';
      cbn [percentEncode append]; intros E.
    + injection E as -> E. f_equal. auto.
    + injection E as -> _. discriminate Ec.
    + injection E as <- _. discriminate Ec'.
    + injection E as E1 E2 E.
      assert (percentEncode c = percentEncode c') as Ep
          by (unfold percentEncode; now rewrite E1, E2).
      apply percentEncode_inj in Ep. subst c'. f_equal. auto.
Qed.

Lemma formPair_cut (e : string * string) :
  formPair e = encodeURIComponent (fst e) ++ String "=" (encodeURIComponent (snd e)).
Proof. reflexivity. Qed.

Lemma formPair_inj (e e' : string * string) : formPair e = formPair e' -> e = e'.
Proof.
  rewrite !formPair_cut. intros E.
  apply cut_unique in E; try apply encodeURIComponent_avoids_eq.
  destruct E as [Ek Ev]. apply encodeURIComponent_inj in Ek, Ev.
  destruct e, e'; simpl in *. now subst.
Qed.

Lemma formPair_avoids_amp (e : string * string) : avoids "&" (formPair e) = true.
Proof.
  rewrite formPair_cut. unfold avoids.
  rewrite SignerFacts.allChars_append. cbn [allChars].
  fold (avoids "&" (encodeURIComponent (fst e))).
  fold (avoids "&" (encodeURIComponent (snd e))).
  now rewrite !encodeURIComponent_avoids_amp.
Qed.

Lemma formPair_nonempty (e : string * string) : formPair e <> "".
Proof.
  rewrite formPair_cut. intros E. apply (f_equal String.length) in E.
  rewrite length_append in E. simpl in E. lia.
Qed.

Lemma join_cons2 (sep x y : string) (l : list string) :
  join sep (x :: y :: l) = x ++ sep ++ join sep (y :: l).
Proof. reflexivity. Qed.

(** The joined pairs determine the list of pairs. *)
Lemma join_formPairs_inj (p p' : list (string * string)) :
  join "&" (map formPair p) = join "&" (map formPair p') -> p = p'.
Proof.
  revert p'. induction p as [|e p IH]; intros [|e' p'].
  - reflexivity.
  - destruct p' as [|e2 p']; cbn [map]; [cbn [join String.concat]|rewrite join_cons2];
      intros E; symmetry in E.
    + now apply formPair_nonempty in E.
    + apply (f_equal String.length) in E. rewrite length_append in E.
      simpl in E. lia.
  - destruct p as [|e2 p]; cbn [map]; [cbn [join String.concat]|rewrite join_cons2];
      intros E.
    + now apply formPair_nonempty in E.
    + apply (f_equal String.length) in E. rewrite length_append in E.
      simpl in E. lia.
  - destruct p as [|e2 p]; destruct p' as [|e2' p']; cbn [map];
      rewrite ?join_cons2; cbn [join String.concat]; intros E.
    + apply formPair_inj in E. now subst.
    + exfalso. eapply (cut_absurd "&"); [|exact E]. apply formPair_avoids_amp.
    + exfalso. symmetry in E.
      eapply (cut_absurd "&"); [|exact E]. apply formPair_avoids_amp.
    + apply cut_unique in E; try apply formPair_avoids_amp.
      destruct E as [E1 E2]. apply formPair_inj in E1. subst e'.
      f_equal. apply IH. exact E2.
Qed.

End WireFacts.

(* ================================================================== *)
(** ** More on the request that [doRequest] assembles *)

Module AssemblyFacts.

Import JsObject Crypto StsClient StringFacts SortFacts ObjectFacts HeaderFacts.
Import Wire WireFacts.

Lemma allChars_join (p : ascii -> bool) (sep : string) (l : list string) :
  allChars p sep = true -> Forall (fun s => allChars p s = true) l ->
  allChars p (join sep l) = true.
Proof.
  intros Hsep. induction 1 as [|x l Hx Hl IH]; [reflexivity|].
  destruct l as [|y l]; [exact Hx|].
  rewrite join_cons2, !SignerFacts.allChars_append, Hx, Hsep. exact IH.
Qed.

Lemma formPair_formChars (e : string * string) :
  allChars isFormChar (formPair e) = true.
Proof.
  assert (forall s, allChars isFormChar (encodeURIComponent s) = true) as H.
  { intros s. eapply allChars_impl; [|apply encodeURIComponent_safe].
    intros c Hc. unfold isFormChar. now rewrite Hc. }
  rewrite formPair_cut, SignerFacts.allChars_append. cbn [allChars].
  now rewrite !H.
Qed.

Lemma formPairs_formChars (l : list (string * string)) :
  allChars isFormChar (join "&" (map formPair l)) = true.
Proof.
  apply allChars_join; [reflexivity|].
  apply Forall_forall. intros s Hs. apply in_map_iff in Hs.
  destruct Hs as [e [<- _]]. apply formPair_formChars.
Qed.

Lemma formPairs_length (l : list (string * string)) :
  l <> [] -> (0 <? String.length (join "&" (map formPair l)))%nat = true.
Proof.
  intros Hl. apply Nat.ltb_lt.
  destruct (join "&" (map formPair l)) eqn:E; [|simpl; lia].
  exfalso. apply Hl.
  apply (join_formPairs_inj l []). exact E.
Qed.

(** X1.  The body determines the form mapping: two payload objects with
    the same body text have the same entries in the same order. *)
Theorem payloadString_determines_payload (p p' : JsObject.t) :
  payloadString (Some p) = payloadString (Some p') -> p = p'.
Proof. apply join_formPairs_inj. Qed.

Lemma payloadString_determines_payload_witness :
  payloadString (Some [("RoleArn", "a b")]) = payloadString (Some [("RoleArn", "a b")])
  /\ [("RoleArn", "a b")] = [("RoleArn", "a b")].
Proof.
  split; [reflexivity|].
  apply (payloadString_determines_payload [("RoleArn", "a b")] [("RoleArn", "a b")]).
  reflexivity.
Defined.

(** X2.  Two query mappings with the same canonical query string hold
    the same entries. *)
Theorem canonicalQueryString_determines_entries (q q' : JsObject.t) :
  canonicalQueryString q = canonicalQueryString q' -> Permutation q q'.
Proof.
  unfold canonicalQueryString, entries. intros E.
  apply join_formPairs_inj in E.
  rewrite <- (sort_perm byKey q), <- (sort_perm byKey q'). now rewrite E.
Qed.

Lemma canonicalQueryString_determines_entries_witness :
  canonicalQueryString [("b", "2"); ("a", "1")]
  = canonicalQueryString [("a", "1"); ("b", "2")]
  /\ Permutation [("b", "2"); ("a", "1")] [("a", "1"); ("b", "2")].
Proof.
  split; [reflexivity|].
  apply (canonicalQueryString_determines_entries
           [("b", "2"); ("a", "1")] [("a", "1"); ("b", "2")]).
  reflexivity.
Defined.

(** X3.  The body text and the canonical query string hold nothing but
    unreserved URI characters, [%], [=] and [&]: no space, line feed,
    quote or byte above 127 reaches the wire unencoded. *)
Theorem form_text_alphabet (payload : option JsObject.t) (query : JsObject.t) :
  allChars isFormChar (payloadString payload) = true
  /\ allChars isFormChar (canonicalQueryString query) = true.
Proof.
  split.
  - destruct payload as [p|]; [apply formPairs_formChars|reflexivity].
  - apply formPairs_formChars.
Qed.

(** A property of the target survives [Object.assign]. *)
Lemma assign1_keeps (k : string) (target source : JsObject.t) :
  get k target <> None -> get k (assign1 target source) <> None.
Proof.
  unfold assign1, entries. revert target.
  induction source as [|[k0 v0] s IH]; simpl; intros target H; [exact H|].
  apply IH. destruct (String.eqb_spec k k0) as [->|Hne].
  - now rewrite get_set_same.
  - now rewrite get_set_other.
Qed.

Lemma In_canonicalHeaders (o : JsObject.t) (e : string * string) :
  In e (entries o) -> isSigned (toLowerCase (fst e), "") = true ->
  In (lowerTrim e) (canonicalHeaders o).
Proof.
  intros He Hs. unfold canonicalHeaders.
  apply (Permutation_in _ (Permutation_sym (sort_perm byKey _))).
  apply filter_In. split; [now apply in_map|exact Hs].
Qed.

Lemma lowerHex_plain (c : ascii) : isLowerHex c = true -> isPlain c = true.
Proof.
  destruct c as [[|] [|] [|] [|] [|] [|] [|] [|]]; cbv; intros H;
    try reflexivity; discriminate H.
Qed.

Lemma trim_hex (s : string) : allChars isLowerHex s = true -> trim s = s.
Proof.
  intros H. apply TrimFacts.trim_plain. eapply allChars_impl; [|exact H].
  apply lowerHex_plain.
Qed.

Section Assembly.

Variable this : StsClient.t.
Variable method : Method.
Variable uri : string.
Variables headers query : JsObject.t.
Variable payload : option JsObject.t.
Variable options : option RequestOptions.
Variables timeString nonce : string.

Local Abbreviation sent :=
  (allHeaders this method uri headers query payload timeString nonce).
Local Abbreviation init :=
  (requestInit this method uri headers query payload options timeString nonce).

(** X4.  The content hash that is sent is the digest of the body that is
    sent: of its bytes when there is a body, of no bytes when there is
    none. *)
Theorem content_hash_matches_body :
  get "x-acs-content-sha256" (initHeaders init)
  = Some (encodeHex (sha256 (match body init with
                             | Some bytes => bytes
                             | None => []
                             end))).
Proof.
  unfold requestInit. cbn [initHeaders body].
  rewrite get_allHeaders_contentHash. f_equal.
  unfold payloadHashString, payloadBytes.
  destruct (payloadString payload) as [|c s] eqn:E; reflexivity.
Qed.

(** X5.  [Content-Type] is always the form type, whatever the caller
    gave.  [Content-Length] is the number of body bytes when a body is
    sent; without a body the client does not set it, and a value of the
    caller stays. *)
Theorem content_headers :
  wf headers ->
  get "Content-Type" sent = Some "application/x-www-form-urlencoded"
  /\ match body init with
     | Some bytes => get "Content-Length" sent = Some (ofNat (List.length bytes))
     | None => get "Content-Length" sent = get "Content-Length" headers
     end.
Proof.
  intros Hwf. split.
  - unfold allHeaders. apply get_set_same.
  - unfold requestInit, allHeaders. cbn [body].
    rewrite get_set_other by discriminate.
    destruct (0 <? String.length (payloadString payload))%nat.
    + apply get_set_same.
    + rewrite get_set_other by discriminate.
      unfold hashedHeaders. rewrite get_set_other by discriminate.
      rewrite get_mergedHeaders by exact Hwf.
      destruct (get "Content-Length" headers); reflexivity.
Qed.

(** X6.  The URL has a question mark exactly when the query has an
    entry: without entries it is the scheme, the endpoint and the path. *)
Theorem fullUrl_query_mark :
  fullUrl this uri query
  = match query with
    | [] => "https://" ++ endpoint this ++ uri
    | _ :: _ => "https://" ++ endpoint this ++ uri ++ "?" ++ canonicalQueryString query
    end.
Proof.
  unfold fullUrl. destruct query as [|e q] eqn:Eq.
  - cbn. now rewrite append_nil_r.
  - unfold canonicalQueryString, entries. rewrite formPairs_length; [reflexivity|].
    intros Hs. pose proof (sort_perm byKey (e :: q)) as P. rewrite Hs in P.
    now apply Permutation_nil in P.
Qed.

(** X7.  Whatever the caller's headers are, the signature covers a
    [host], a date, a nonce and a version header, and the content hash
    line with the computed hash. *)
Theorem signature_covers_injected_headers :
  let signed := canonicalHeaders (hashedHeaders this headers payload timeString nonce) in
  In "host" (map fst signed)
  /\ In "x-acs-date" (map fst signed)
  /\ In "x-acs-signature-nonce" (map fst signed)
  /\ In "x-acs-version" (map fst signed)
  /\ In ("x-acs-content-sha256", payloadHashString payload) signed.
Proof.
  intros signed.
  assert (forall k, k <> "x-acs-content-sha256" ->
                    get k [ ("x-acs-signature-nonce", nonce);
                            ("x-acs-date", timeString);
                            ("host", endpoint this) ] <> None
                    \/ get k defaultHeaders <> None ->
                    isSigned (toLowerCase k, "") = true ->
                    In (toLowerCase k) (map fst signed)) as Hname.
  { intros k Hk Hin Hs.
    destruct (get k (hashedHeaders this headers payload timeString nonce))
      as [v|] eqn:E.
    - apply get_In in E.
      apply (in_map fst _ (toLowerCase k, trim v)).
      apply In_canonicalHeaders with (e := (k, v)); [exact E|exact Hs].
    - exfalso. revert E. unfold hashedHeaders.
      rewrite get_set_other by exact Hk.
      unfold mergedHeaders, assign. cbn [fold_left].
      apply assign1_keeps. destruct Hin as [Hin|Hin].
      + now apply assign1_keeps.
      + rewrite get_assign1 by apply defaultHeaders_wf.
        destruct (get k defaultHeaders); congruence. }
  split; [apply (Hname "host"); [discriminate|left; discriminate|reflexivity]|].
  split; [apply (Hname "x-acs-date"); [discriminate|left; discriminate|reflexivity]|].
  split; [apply (Hname "x-acs-signature-nonce");
          [discriminate|left; discriminate|reflexivity]|].
  split; [apply (Hname "x-acs-version"); [discriminate|right; discriminate|reflexivity]|].
  pose proof (In_canonicalHeaders
                (hashedHeaders this headers payload timeString nonce)
                ("x-acs-content-sha256", payloadHashString payload)) as H.
  unfold lowerTrim in H. cbn [fst snd] in H.
  rewrite (trim_hex (payloadHashString payload)) in H
    by apply SignerFacts.encodeHex_lower.
  apply H; [|reflexivity].
  apply get_In. unfold hashedHeaders. apply get_set_same.
Qed.

(** X8.  A header of the caller is sent with its value, unless its name
    is one of the four the client assigns after the merge. *)
Theorem caller_headers_are_sent (k v : string) :
  wf headers -> get k headers = Some v ->
  k <> "Content-Type" -> k <> "Content-Length" ->
  k <> "Authorization" -> k <> "x-acs-content-sha256" ->
  get k sent = Some v.
Proof.
  intros Hwf Hk H1 H2 H3 H4.
  rewrite get_allHeaders_other by assumption.
  rewrite get_mergedHeaders by exact Hwf. now rewrite Hk.
Qed.

End Assembly.

Lemma content_headers_witness :
  let this := mkClient "sts.aliyuncs.com" "id" "secret" in
  let headers := [("Content-Type", "text/plain"); ("Content-Length", "7")] in
  wf headers
  /\ get "Content-Type" (allHeaders this POST "/" headers [] None "T" "N")
     = Some "application/x-www-form-urlencoded"
  /\ get "Content-Length" (allHeaders this POST "/" headers [] None "T" "N")
     = Some "7".
Proof.
  intros this headers.
  assert (wf headers) as Hwf.
  { unfold wf, headers. simpl. repeat constructor; simpl; intuition discriminate. }
  split; [exact Hwf|].
  exact (content_headers this POST "/" headers [] None None "T" "N" Hwf).
Defined.

Lemma caller_headers_are_sent_witness :
  let this := mkClient "sts.aliyuncs.com" "id" "secret" in
  let headers := [("x-acs-action", "AssumeRole")] in
  (wf headers /\ get "x-acs-action" headers = Some "AssumeRole")
  /\ get "x-acs-action" (allHeaders this POST "/" headers [] None "T" "N")
     = Some "AssumeRole".
Proof.
  intros this headers.
  assert (wf headers) as Hwf.
  { unfold wf, headers. simpl. repeat constructor; simpl; intuition discriminate. }
  split; [split; [exact Hwf|reflexivity]|].
  apply (caller_headers_are_sent this POST "/" headers [] None "T" "N"
           "x-acs-action" "AssumeRole" Hwf);
    [reflexivity|discriminate|discriminate|discriminate|discriminate].
Defined.

(** X17.  The secret reaches the request through the signature only: with
    another secret and everything else the same, the URL, the body and
    every header but [Authorization] are the same, and so are the
    credential and the signed header names inside [Authorization]. *)
Theorem secret_only_in_signature
        (this : StsClient.t) (secret' : string) (method : Method) (uri : string)
        (headers query : JsObject.t) (payload : option JsObject.t)
        (options : option RequestOptions) (timeString nonce k : string) :
  let this' := mkClient (endpoint this) (accessKeyId this) secret' in
  let init := requestInit this method uri headers query payload options timeString nonce in
  let init' := requestInit this' method uri headers query payload options timeString nonce in
  fullUrl this uri query = fullUrl this' uri query
  /\ body init = body init'
  /\ (k <> "Authorization" -> get k (initHeaders init) = get k (initHeaders init'))
  /\ get "Authorization" (initHeaders init')
     = Some (authorizationHeaderText (accessKeyId this)
               (canonicalHeaderNameString
                  (hashedHeaders this headers payload timeString nonce))
               (sigString secret'
                  (canonicalRequest this method uri headers query payload
                                    timeString nonce))).
Proof.
  intros this' init init'.
  split; [reflexivity|]. split; [reflexivity|]. split.
  - intros Hk. unfold init, init', requestInit. cbn [initHeaders].
    unfold allHeaders.
    destruct (String.eqb_spec k "Content-Type") as [->|H1];
      [now rewrite !get_set_same|].
    rewrite !(get_set_other "Content-Type") by exact H1.
    destruct (0 <? String.length (payloadString payload))%nat.
    + destruct (String.eqb_spec k "Content-Length") as [->|H2];
        [now rewrite !get_set_same|].
      rewrite !(get_set_other "Content-Length") by exact H2.
      now rewrite !(get_set_other "Authorization") by exact Hk.
    + now rewrite !(get_set_other "Authorization") by exact Hk.
  - unfold init', requestInit. cbn [initHeaders].
    rewrite get_allHeaders_authorization. reflexivity.
Qed.

Lemma secret_only_in_signature_witness :
  let this := mkClient "sts.aliyuncs.com" "id" "secret" in
  let this' := mkClient "sts.aliyuncs.com" "id" "other" in
  "x-acs-date" <> "Authorization"
  /\ get "x-acs-date"
         (initHeaders (requestInit this POST "/" [] [] None None "T" "N"))
     = get "x-acs-date"
           (initHeaders (requestInit this' POST "/" [] [] None None "T" "N")).
Proof.
  intros this this'.
  assert ("x-acs-date" <> "Authorization") as H by discriminate.
  split; [exact H|].
  exact (proj1 (proj2 (proj2
           (secret_only_in_signature this "other" POST "/" [] [] None None
                                     "T" "N" "x-acs-date"))) H).
Defined.

End AssemblyFacts.

(* ================================================================== *)
(** ** More on the response *)

Module OutcomeFacts.

Import StsClient.

Lemma catchHandler_throws (e : Exception) (r : AssumeRoleResponse) :
  catchHandler e <> Normal r.
Proof. unfold catchHandler. destruct (exceptionName e =? "TimeoutError"); discriminate. Qed.

Lemma handleResponse_normal (fetched : Completion Response) (r : AssumeRoleResponse) :
  handleResponse fetched = Normal r -> tryBody fetched = Normal r.
Proof.
  unfold handleResponse, tryCatch. destruct (tryBody fetched) as [a|e]; [easy|].
  intros H. now apply catchHandler_throws in H.
Qed.

(** X9.  A response with a status of 400 or more never gives a result,
    whatever its body is. *)
Theorem error_status_never_result
        (st : Z) (body : Completion Json.value) (r : AssumeRoleResponse) :
  (400 <= st)%Z -> handleResponse (Normal (mkResponse st body)) <> Normal r.
Proof.
  intros Hst H. apply handleResponse_normal in H. revert H.
  unfold tryBody. cbn -[Z.leb].
  destruct (500 <=? st)%Z; [discriminate|].
  assert ((400 <=? st)%Z = true) as -> by now apply Z.leb_le.
  destruct body as [v|e]; [|discriminate].
  destruct v; cbn -[messageText]; try discriminate;
    unfold newClientError; destruct (messageText _); discriminate.
Qed.

Lemma error_status_never_result_witness :
  (400 <= 404)%Z
  /\ handleResponse (Normal (mkResponse 404 (Normal (JObject []))))
     <> Normal (mkAssumeRoleResponse None (mkAssumedRoleUser None None)
                                     (mkCredentials None None None None)).
Proof.
  split; [lia|]. apply error_status_never_result. lia.
Defined.

(** X10.  A result is returned only for a response with a status below
    400 whose body parsed to an object with members AssumedRoleUser and
    Credentials other than [null], and its fields are then the members
    read from that object. *)
Theorem result_only_from_complete_body
        (fetched : Completion Response) (r : AssumeRoleResponse) :
  handleResponse fetched = Normal r ->
  exists st members user creds,
    fetched = Normal (mkResponse st (Normal (JObject members)))
    /\ (st < 400)%Z
    /\ Json.lookup "AssumedRoleUser" members = Some user /\ user <> JNull
    /\ Json.lookup "Credentials" members = Some creds /\ creds <> JNull
    /\ r = mkAssumeRoleResponse
             (Json.lookup "RequestId" members)
             (mkAssumedRoleUser (member user "Arn") (member user "AssumedRoleId"))
             (mkCredentials (member creds "SecurityToken")
                            (member creds "AccessKeyId")
                            (member creds "AccessKeySecret")
                            (member creds "Expiration")).
Proof.
  intros H. apply handleResponse_normal in H.
  destruct fetched as [[st body]|e]; [|discriminate H].
  destruct (Z.le_gt_cases 400 st) as [Hge|Hlt].
  { exfalso. revert H. unfold tryBody. cbn -[Z.leb].
    destruct (500 <=? st)%Z; [discriminate|].
    assert ((400 <=? st)%Z = true) as -> by now apply Z.leb_le.
    destruct body as [v|e]; [|discriminate].
    destruct v; cbn -[messageText]; try discriminate;
      unfold newClientError; destruct (messageText _); discriminate. }
  unfold tryBody in H. cbn -[Z.leb] in H.
  assert ((500 <=? st)%Z = false) as E5 by (apply Z.leb_gt; lia).
  assert ((400 <=? st)%Z = false) as E4 by (apply Z.leb_gt; lia).
  rewrite E5, E4 in H.
  destruct body as [v|e]; [|discriminate H].
  destruct v as [| | | | |members]; try discriminate H.
  cbn in H.
  destruct (Json.lookup "AssumedRoleUser" members) as [user|] eqn:Eu;
    [|discriminate H].
  destruct (Json.lookup "Credentials" members) as [creds|] eqn:Ec;
    [|destruct user; discriminate H].
  exists st, members, user, creds.
  destruct user; try discriminate H; destruct creds; try discriminate H;
    cbn in H; injection H as <-;
    repeat split; try assumption; try discriminate.
Qed.

Lemma result_only_from_complete_body_witness :
  let members := [ ("AssumedRoleUser", JObject [("Arn", JString "a")]);
                   ("Credentials", JObject [("SecurityToken", JString "t")]) ] in
  let r := mkAssumeRoleResponse None
             (mkAssumedRoleUser (Some (JString "a")) None)
             (mkCredentials (Some (JString "t")) None None None) in
  handleResponse (Normal (mkResponse 200 (Normal (JObject members)))) = Normal r
  /\ exists st ms user creds,
       Normal (mkResponse 200 (Normal (JObject members)))
       = Normal (mkResponse st (Normal (JObject ms)))
       /\ (st < 400)%Z
       /\ Json.lookup "AssumedRoleUser" ms = Some user /\ user <> JNull
       /\ Json.lookup "Credentials" ms = Some creds /\ creds <> JNull
       /\ r = mkAssumeRoleResponse
                (Json.lookup "RequestId" ms)
                (mkAssumedRoleUser (member user "Arn") (member user "AssumedRoleId"))
                (mkCredentials (member creds "SecurityToken")
                               (member creds "AccessKeyId")
                               (member creds "AccessKeySecret")
                               (member creds "Expiration")).
Proof.
  intros members r. split; [reflexivity|].
  apply (result_only_from_complete_body
           (Normal (mkResponse 200 (Normal (JObject members)))) r).
  reflexivity.
Defined.

(** X11.  Below status 500 a failure to read the body that is not a
    timeout is passed on as it is, also for a 4xx status, where no
    [ClientError] is made; and a 4xx body that is the JSON [null] ends in
    a [TypeError]. *)
Theorem body_failure_is_passed_on (st : Z) (e : Exception) :
  (st < 500)%Z -> exceptionName e <> "TimeoutError" ->
  handleResponse (Normal (mkResponse st (Throw e))) = Throw e
  /\ ((400 <= st)%Z ->
      handleResponse (Normal (mkResponse st (Normal JNull)))
      = Throw (ThrownByPlatform "TypeError")).
Proof.
  intros Hst He. apply String.eqb_neq in He.
  assert ((500 <=? st)%Z = false) as E5 by (apply Z.leb_gt; lia).
  split.
  - unfold handleResponse, tryBody, catchHandler. cbn -[Z.leb]. rewrite E5.
    destruct (400 <=? st)%Z; cbn; now rewrite He.
  - intros H4. apply Z.leb_le in H4.
    unfold handleResponse, tryBody, catchHandler. cbn -[Z.leb].
    now rewrite E5, H4.
Qed.

Lemma body_failure_is_passed_on_witness :
  ((404 < 500)%Z /\ exceptionName (ThrownByPlatform "SyntaxError") <> "TimeoutError")
  /\ handleResponse (Normal (mkResponse 404 (Throw (ThrownByPlatform "SyntaxError"))))
     = Throw (ThrownByPlatform "SyntaxError").
Proof.
  assert ((404 < 500)%Z) as H1 by lia.
  assert (exceptionName (ThrownByPlatform "SyntaxError") <> "TimeoutError") as H2
      by discriminate.
  split; [split; assumption|].
  exact (proj1 (body_failure_is_passed_on 404 (ThrownByPlatform "SyntaxError") H1 H2)).
Defined.

End OutcomeFacts.

(* ================================================================== *)
(** ** More on [assumeRole] and on the clock helpers *)

Module AssumeRoleFacts.

Import JsObject Crypto StsClient StringFacts Helper.

Lemma assumeRolePayload_shape_aux (config : AssumeRoleRequest) :
  assumeRolePayload config
  = ([ ("DurationSeconds", ofZ (durationSeconds config));
       ("RoleArn", roleArn config);
       ("RoleSessionName", roleSessionName config) ]
     ++ match policy config with
        | Some p => [ ("Policy", Json.stringify (JObject p)) ]
        | None => []
        end
     ++ match externalId config with
        | Some x => if x =? "" then [] else [ ("ExternalId", x) ]
        | None => []
        end)%list.
Proof.
  destruct config as [d p a n x]. unfold assumeRolePayload.
  cbn [durationSeconds policy roleArn roleSessionName externalId].
  destruct p as [p|]; destruct x as [[|c x]|]; reflexivity.
Qed.

(** X12.  The form mapping of [assumeRole] is DurationSeconds, RoleArn and
    RoleSessionName, then Policy when the request has a policy, then
    ExternalId when the request has an external ID that is not the empty
    string: an empty external ID is left out like [null]. *)
Theorem assumeRolePayload_shape (config : AssumeRoleRequest) :
  assumeRolePayload config
  = ([ ("DurationSeconds", ofZ (durationSeconds config));
       ("RoleArn", roleArn config);
       ("RoleSessionName", roleSessionName config) ]
     ++ match policy config with
        | Some p => [ ("Policy", Json.stringify (JObject p)) ]
        | None => []
        end
     ++ match externalId config with
        | Some x => if x =? "" then [] else [ ("ExternalId", x) ]
        | None => []
        end)%list.
Proof. exact (assumeRolePayload_shape_aux config). Qed.

(** X13.  Every [assumeRole] call signs the same six headers, whatever
    the client, the request, the time and the nonce are. *)
Theorem assumeRole_signed_headers
        (this : StsClient.t) (config : AssumeRoleRequest)
        (timeString nonce : string) :
  canonicalHeaderNameString
    (hashedHeaders this assumeRoleHeaders (Some (assumeRolePayload config))
                   timeString nonce)
  = "host;x-acs-action;x-acs-content-sha256;x-acs-date;x-acs-signature-nonce;x-acs-version".
Proof. reflexivity. Qed.

(** X14.  A request made by the constructor and not changed afterwards
    asks for 3600 seconds and sends no ExternalId: its body is
    DurationSeconds=3600, RoleArn and RoleSessionName percent-encoded, and
    the percent-encoded policy text when there is a policy. *)
Theorem constructed_request_body
        (roleArn roleSessionName : string) (policy : option Policy) :
  payloadString
    (Some (assumeRolePayload (newAssumeRoleRequest roleArn roleSessionName policy)))
  = "DurationSeconds=3600&RoleArn=" ++ encodeURIComponent roleArn
      ++ "&RoleSessionName=" ++ encodeURIComponent roleSessionName
      ++ match policy with
         | Some p => "&Policy=" ++ encodeURIComponent (Json.stringify (JObject p))
         | None => ""
         end.
Proof.
  rewrite assumeRolePayload_shape_aux. unfold newAssumeRoleRequest.
  cbn [durationSeconds StsClient.policy StsClient.roleArn
       StsClient.roleSessionName externalId].
  destruct policy as [p|]; unfold payloadString, entries, formPair;
    cbn [app map fst snd join String.concat];
    rewrite !append_assoc; cbn; rewrite ?append_nil_r; reflexivity.
Qed.

Lemma substring_prefix (a b : string) :
  String.substring 0 (String.length a) (a ++ b) = a.
Proof.
  induction a as [|c a IH]; simpl.
  - destruct b; reflexivity.
  - now rewrite IH.
Qed.

(** X15.  [currentDateAsISO8601] drops the last five characters of the
    ISO text, the fraction of a second and its [Z], and appends [Z]: the
    text of the documentation, 2018-01-01T12:00:00.000Z, gives
    2018-01-01T12:00:00Z. *)
Theorem currentDateAsISO8601_drops_fraction (seconds fraction : string) :
  String.length fraction = 5 ->
  currentDateAsISO8601 (seconds ++ fraction) = seconds ++ "Z".
Proof.
  intros H. unfold currentDateAsISO8601, substring, clampIndex.
  rewrite length_append, H.
  replace (Z.to_nat (Z.max 0 (Z.min 0 (Z.of_nat (String.length seconds + 5)))))
    with 0 by lia.
  replace (Z.to_nat
             (Z.max 0
                (Z.min (Z.of_nat (String.length seconds + 5) - 5)
                       (Z.of_nat (String.length seconds + 5)))))
    with (String.length seconds) by lia.
  rewrite Nat.min_0_l, Nat.max_0_l, Nat.sub_0_r.
  now rewrite substring_prefix.
Qed.

Lemma currentDateAsISO8601_drops_fraction_witness :
  String.length ".000Z" = 5
  /\ currentDateAsISO8601 "2018-01-01T12:00:00.000Z" = "2018-01-01T12:00:00Z".
Proof.
  split; [reflexivity|].
  apply (currentDateAsISO8601_drops_fraction "2018-01-01T12:00:00" ".000Z").
  reflexivity.
Defined.

Lemma string_of_uint_digits (d : Decimal.uint) :
  allChars isDigit (NilEmpty.string_of_uint d) = true.
Proof. induction d; simpl; auto. Qed.

Lemma ofZ_inj (a b : Z) : ofZ a = ofZ b -> a = b.
Proof.
  unfold ofZ. intros E.
  apply (f_equal NilZero.int_of_string) in E.
  assert (forall z, Z.to_int z <> Decimal.Pos Decimal.Nil
                    /\ Z.to_int z <> Decimal.Neg Decimal.Nil) as Hn.
  { intros [|p|p]; simpl; split; try discriminate;
      intros [= H]; now apply Unsigned.to_uint_nonnil in H. }
  rewrite !NilZero.isi in E by apply Hn.
  injection E as E. apply (f_equal Z.of_int) in E.
  now rewrite !DecimalZ.of_to in E.
Qed.

(** X16.  Two nonces are equal exactly when they are made in the same
    millisecond, and a nonce made at or after the epoch is a string of
    decimal digits. *)
Theorem generateNonce_by_millisecond (now1 now2 : Z) :
  (generateNonce now1 = generateNonce now2 <-> now1 = now2)
  /\ ((0 <= now1)%Z -> allChars isDigit (generateNonce now1) = true).
Proof.
  split; [split; [apply ofZ_inj|now intros ->]|].
  unfold generateNonce, ofZ. destruct now1 as [|p|p]; [reflexivity| |lia].
  intros _. cbn [Z.to_int NilZero.string_of_int].
  unfold NilZero.string_of_uint.
  destruct (Pos.to_uint p) eqn:E; try (rewrite <- E; apply string_of_uint_digits).
  reflexivity.
Qed.

Lemma generateNonce_by_millisecond_witness :
  ((0 <= 1704067200000)%Z)
  /\ allChars isDigit (generateNonce 1704067200000) = true.
Proof.
  assert ((0 <= 1704067200000)%Z) as H by lia.
  split; [exact H|].
  exact (proj2 (generateNonce_by_millisecond 1704067200000 0) H).
Defined.

End AssumeRoleFacts.

(* ================================================================== *)
(** ** Canonical headers are in normal form *)

Module NormalFormFacts.

Import JsObject StsClient StringFacts SortFacts.

Lemma toLowerChar_idem (c : ascii) : toLowerChar (toLowerChar c) = toLowerChar c.
Proof. destruct c as [[|] [|] [|] [|] [|] [|] [|] [|]]; reflexivity. Qed.

Lemma toLowerCase_idem (s : string) : toLowerCase (toLowerCase s) = toLowerCase s.
Proof.
  induction s as [|c s IH]; simpl; [reflexivity|].
  now rewrite toLowerChar_idem, IH.
Qed.

Lemma lowerTrim_idem (e : string * string) : lowerTrim (lowerTrim e) = lowerTrim e.
Proof.
  unfold lowerTrim. cbn [fst snd].
  now rewrite toLowerCase_idem, TrimFacts.trim_idem.
Qed.

Lemma sort_sorted_id (l : list (string * string)) :
  StronglySorted (JsArray.le byKey) l -> sort byKey l = l.
Proof.
  induction 1 as [|x l Hs IH Hx]; [reflexivity|]. cbn [sort]. rewrite IH.
  destruct l as [|y l]; [reflexivity|]. cbn [insert].
  inversion Hx as [|? ? Hxy _]; subst. unfold JsArray.le in Hxy.
  assert ((0 <? byKey x y)%Z = false) as -> by (apply Z.ltb_ge; exact Hxy).
  reflexivity.
Qed.

Lemma map_id_on {A : Type} (f : A -> A) (l : list A) :
  (forall x, In x l -> f x = x) -> map f l = l.
Proof.
  induction l as [|x l IH]; intros H; [reflexivity|]. simpl.
  rewrite H by now left. f_equal. apply IH. intros y Hy. apply H. now right.
Qed.

Lemma filter_id_on {A : Type} (f : A -> bool) (l : list A) :
  (forall x, In x l -> f x = true) -> filter f l = l.
Proof.
  induction l as [|x l IH]; intros H; [reflexivity|]. simpl.
  rewrite H by now left. f_equal. apply IH. intros y Hy. apply H. now right.
Qed.

(** X18.  Canonical headers are in normal form: canonicalizing them
    again changes nothing, so every name is already lower case, every
    value already trimmed, every entry signed and the list sorted. *)
Theorem canonicalHeaders_idempotent (allHeaders : JsObject.t) :
  canonicalHeaders (canonicalHeaders allHeaders) = canonicalHeaders allHeaders.
Proof.
  assert (forall e, In e (canonicalHeaders allHeaders) ->
                    lowerTrim e = e /\ isSigned e = true) as H.
  { intros e He. unfold canonicalHeaders in He.
    apply (Permutation_in _ (sort_perm byKey _)) in He.
    apply filter_In in He. destruct He as [He Hs]. split; [|exact Hs].
    apply in_map_iff in He. destruct He as [e0 [<- _]]. apply lowerTrim_idem. }
  unfold canonicalHeaders at 1. unfold entries.
  rewrite map_id_on by (intros e He; apply H; exact He).
  rewrite filter_id_on by (intros e He; apply H; exact He).
  apply sort_sorted_id. unfold canonicalHeaders.
  apply (sort_sorted byKey byKey_opp byKey_trans).
Qed.

End NormalFormFacts.
